(** * invoke/runners.py: the command runner, its result and its stream watchers

    A shallow embedding of [invoke.runners]: [Result], [normalize_hide],
    [StreamWatcher] / [Responder] / [FailingResponder], and the [Local]
    runner ([_run_opts], [should_use_pty], the output workers, [_run_body],
    [run]), read as Python 3 runs it ([six.PY2] is false).

    Conventions.
    - Python values the code only passes around, tests for truth or compares
      are [PyVal]; [py_truthy] is [bool(x)], [py_eq] is [==], [py_is_True]
      and [py_is_None] are [is True] and [is None].
    - Byte strings are [list byte]; text (unicode) is [ustring], a list of
      code points.  [u "..."] is a text literal.
    - An exception is a value of [Exn]; a call that may raise returns
      [res A].  Code that also mutates the runner or writes to a stream is in
      the monad [M]: the state survives a raise, as in Python.
    - What the operating system and the child process do is read from a
      [World]: the answers of [os.read], of [wait], of [returncode] and so on.
    - The IO threads of [_run_body] are run one after the other, each to its
      end; the loop of [handle_stdin] is left to the [World].
    - The library functions [re.findall] and the codec registry are the two
      fields of the class [PythonLib]. *)

From Stdlib Require Import ZArith NArith String Ascii List Bool Lia.
From Stdlib Require Import Strings.Byte.
From stdpp Require Import base option gmap strings list fin_maps.
Import ListNotations.

Set Warnings "-register-all".

(** ** Text and bytes *)

Definition ustring := list N.
Definition bytes := list byte.

(** A text literal: the code points of an ASCII string. *)
Definition u (s : string) : ustring :=
  map N_of_ascii (list_ascii_of_string s).

(** ** Python values *)

(** The streams [run] may be handed: the three of [sys], or a file-like
    object of the caller's, told apart by a number. *)
Inductive Stream :=
| sys_stdin
| sys_stdout
| sys_stderr
| file_like (id : nat).

(** A stream watcher is an object with state: a [PyWatcher] is a reference
    to it, an address in the runner's heap of watcher objects (see
    [WatcherObject]), so that the same watcher listed twice is one object. *)
Inductive PyVal :=
| PyNone
| PyBool (b : bool)
| PyInt (z : Z)
| PyStr (s : string)
| PyTuple (items : list PyVal)
| PyList (items : list PyVal)
| PyDict (d : gmap string string)
| PyFile (f : Stream)
| PyWatcher (addr : nat).

#[global] Instance Stream_eq_dec : EqDecision Stream.
Proof. solve_decision. Defined.

(** [bool(x)]. *)
Definition py_truthy (v : PyVal) : bool :=
  match v with
  | PyNone => false
  | PyBool b => b
  | PyInt z => negb (z =? 0)%Z
  | PyStr s => negb (String.eqb s "")
  | PyTuple l | PyList l => match l with [] => false | _ => true end
  | PyDict d => negb (bool_decide (d = ∅))
  | PyFile _ | PyWatcher _ => true
  end.

(** [a == b].  [bool] is a subclass of [int]: [True == 1] and [False == 0].
    A tuple never equals a list. *)
Fixpoint py_eq (a b : PyVal) : bool :=
  let fix all2 (xs ys : list PyVal) : bool :=
    match xs, ys with
    | [], [] => true
    | x :: xs', y :: ys' => py_eq x y && all2 xs' ys'
    | _, _ => false
    end in
  match a, b with
  | PyNone, PyNone => true
  | PyBool x, PyBool y => Bool.eqb x y
  | PyBool x, PyInt z | PyInt z, PyBool x => (Z.b2z x =? z)%Z
  | PyInt x, PyInt y => (x =? y)%Z
  | PyStr x, PyStr y => String.eqb x y
  | PyTuple xs, PyTuple ys => all2 xs ys
  | PyList xs, PyList ys => all2 xs ys
  | PyDict x, PyDict y => bool_decide (x = y)
  | PyFile x, PyFile y => bool_decide (x = y)
  | PyWatcher x, PyWatcher y => bool_decide (x = y)
  | _, _ => false
  end.

(** [a is True], [a is None]: identity with a singleton. *)
Definition py_is_True (v : PyVal) : bool :=
  match v with PyBool true => true | _ => false end.

Definition py_is_None (v : PyVal) : bool :=
  match v with PyNone => true | _ => false end.

(** [val in items] on a tuple: some item equals [val]. *)
Definition py_in (val : PyVal) (items : list PyVal) : bool :=
  existsb (py_eq val) items.

(** ** Result *)

Record Result := mkResult {
  command : string;
  shell : PyVal;
  env : PyVal;
  exited : Z;
  return_code : Z;
  stdout : ustring;
  stderr : ustring;
  pty : bool;
}.

(** [Result.__init__]: [return_code] is set from the same argument as
    [exited]. *)
Definition Result__init__
    (command : string) (shell env : PyVal) (stdout stderr : ustring)
    (exited : Z) (pty : bool) : Result :=
  {| command := command; shell := shell; env := env;
     exited := exited; return_code := exited;
     stdout := stdout; stderr := stderr; pty := pty |}.

Definition ok (self : Result) : bool := (exited self =? 0)%Z.

Definition failed (self : Result) : bool := negb (ok self).

Definition Result__nonzero__ (self : Result) : bool := ok self.

Definition Result__bool__ (self : Result) : bool := Result__nonzero__ self.

(** ** Exceptions *)

Inductive Exn :=
| KeyError (key : string)
| TypeError
| AttributeError
| ValueError (val : PyVal) (allowed : list PyVal)
| LookupError (encoding : string)
| UnicodeDecodeError
| UnicodeEncodeError
| OSError (msg : string)
| KeyboardInterrupt
| SystemExit (msg : string)
| ResponseFailure (pattern failure_sentinel : ustring)
| ThreadException (exceptions : list Exn)
| Failure (result : Result).

Inductive res (A : Type) :=
| Ok (a : A)
| Raise (e : Exn).
Arguments Ok {A} a.
Arguments Raise {A} e.

#[global] Instance res_ret : MRet res := fun _ a => Ok a.
#[global] Instance res_bind : MBind res := fun _ _ f r =>
  match r with Ok a => f a | Raise e => Raise e end.
#[global] Instance res_fmap : FMap res := fun _ _ f r =>
  match r with Ok a => Ok (f a) | Raise e => Raise e end.

Definition raised {A} (r : res A) : option Exn :=
  match r with Ok _ => None | Raise e => Some e end.

(** ** normalize_hide *)

Definition hide_vals : list PyVal :=
  [PyNone; PyBool false; PyStr "out"; PyStr "stdout"; PyStr "err";
   PyStr "stderr"; PyStr "both"; PyBool true].

(** The [ValueError] carries the two values its message formats. *)
Definition normalize_hide (val : PyVal) : res (list PyVal) :=
  if negb (py_in val hide_vals) then Raise (ValueError val hide_vals)
  else if py_in val [PyNone; PyBool false] then Ok []
  else if py_in val [PyStr "both"; PyBool true] then Ok [PyStr "out"; PyStr "err"]
  else if py_eq val (PyStr "stdout") then Ok [PyStr "out"]
  else if py_eq val (PyStr "stderr") then Ok [PyStr "err"]
  else Ok [val].

(** ** The library functions the module calls *)

(** [bytes.decode] and [str.encode] are Python's own.  They are modelled the
    way the codec machinery works: a codec looks at the head of the input,
    and what happens at an undecodable run is up to the error handler the
    caller names, for a codec that calls the handler.  Not every codec does:
    the decoders of [punycode], [idna] and [undefined] raise by themselves,
    whatever handler was named. *)

(** What a codec's decoder does at the head of a byte string: it finds a
    character made of the first byte and [more] bytes after it; or it finds
    an undecodable run of the first byte and [more] bytes after it and calls
    the error handler; or it raises without calling the handler. *)
Inductive Decoded :=
| Char (cp : N) (more : nat)
| Undecodable (more : nat)
| Refused.

Record Codec := {
  decode_at : byte -> bytes -> Decoded;
  encode_char : N -> option bytes;
}.

(** - [findall pattern string] is [re.findall(pattern, string, re.S)] for a
      pattern that compiles; only the number of matches is used by the code.
    - [codecs_lookup] is the codec registry, [None] for an unknown name. *)
Class PythonLib := {
  findall : ustring -> ustring -> list ustring;
  codecs_lookup : string -> option Codec;
}.

(** The error handler named by the second argument of [bytes.decode]. *)
Inductive Errors := strict | replace.

(** The decoding loop of a codec under an error handler.  [skip] counts the
    bytes still to pass over because the previous step consumed them.  At an
    undecodable run, ['strict'] raises and ['replace'] puts U+FFFD and goes
    on after the run.  Where the decoder raises by itself the handler has no
    say. *)
Fixpoint decode_from (c : Codec) (errors : Errors) (skip : nat) (data : bytes)
    : res ustring :=
  match data with
  | [] => Ok []
  | b :: rest =>
    match skip with
    | S k => decode_from c errors k rest
    | O =>
      match decode_at c b rest with
      | Char cp more => cons cp <$> decode_from c errors more rest
      | Undecodable more =>
        match errors with
        | strict => Raise UnicodeDecodeError
        | replace => cons 0xFFFD%N <$> decode_from c errors more rest
        end
      | Refused => Raise UnicodeDecodeError
      end
    end
  end.

(** A codec that leaves every byte it cannot decode to the error handler, as
    the UTF and single-byte codecs built into the interpreter do. *)
Definition consults_handler (c : Codec) : Prop :=
  forall (b : byte) (rest : bytes), decode_at c b rest <> Refused.

(** A registry that holds such codecs only. *)
Definition registry_consults_handler `{PythonLib} : Prop :=
  forall (name : string) (c : Codec),
    codecs_lookup name = Some c -> consults_handler c.

(** [data.decode(encoding, errors)]. *)
Definition bytes_decode `{PythonLib}
    (data : bytes) (encoding : PyVal) (errors : Errors) : res ustring :=
  match encoding with
  | PyStr name =>
    match codecs_lookup name with
    | Some c => decode_from c errors 0 data
    | None => Raise (LookupError name)
    end
  | _ => Raise TypeError
  end.

(** [text.encode(encoding)]: the handler is ['strict']. *)
Fixpoint encode_with (c : Codec) (text : ustring) : res bytes :=
  match text with
  | [] => Ok []
  | cp :: rest =>
    match encode_char c cp with
    | Some bs => app bs <$> encode_with c rest
    | None => Raise UnicodeEncodeError
    end
  end.

Definition str_encode `{PythonLib} (text : ustring) (encoding : PyVal)
    : res bytes :=
  match encoding with
  | PyStr name =>
    match codecs_lookup name with
    | Some c => encode_with c text
    | None => Raise (LookupError name)
    end
  | _ => Raise TypeError
  end.

(** ** Stream watchers *)

(** The constructor arguments of a watcher: [Responder(pattern, response)]
    and [FailingResponder(pattern, response, failure_sentinel)]. *)
Inductive Watcher :=
| Responder (pattern response : ustring)
| FailingResponder (pattern response failure_sentinel : ustring).

(** [StreamWatcher] subclasses [threading.local]: the attributes assigned
    in [__init__] exist once per thread, and a thread that touches the object
    for the first time gets them from [__init__] run again with the same
    arguments.  [Locals] is one thread's copy of the attributes the methods
    assign; a plain [Responder] has, and uses, [index] only. *)
Record Locals := mkLocals {
  index : nat;
  failure_index : nat;
  tried : bool;
}.

Definition Watcher__init__ (w : Watcher) : Locals :=
  {| index := 0; failure_index := 0; tried := false |}.

(** The two attribute names [pattern_matches] is called with. *)
Inductive IndexAttr := attr_index | attr_failure_index.

Definition getattr (self : Locals) (name : IndexAttr) : nat :=
  match name with
  | attr_index => index self
  | attr_failure_index => failure_index self
  end.

Definition setattr (self : Locals) (name : IndexAttr) (value : nat) : Locals :=
  match name with
  | attr_index =>
    {| index := value; failure_index := failure_index self; tried := tried self |}
  | attr_failure_index =>
    {| index := index self; failure_index := value; tried := tried self |}
  end.

Definition set_tried (self : Locals) (value : bool) : Locals :=
  {| index := index self; failure_index := failure_index self; tried := value |}.

(** [bool(l)] of a list. *)
Definition nonempty {A} (l : list A) : bool :=
  match l with [] => false | _ => true end.

(** A generator object made by calling [Responder.submit]: its body has not
    run yet, and it holds the arguments of the call. *)
Inductive Generator :=
| Responder_submit_gen (pattern response stream : ustring).

(** A generator object defines neither [__bool__] nor [__len__]: it is
    true whatever it is going to yield. *)
Definition Generator__bool__ (g : Generator) : bool := true.

Section Watchers.
  Context `{PythonLib}.

Definition pattern_matches
    (stream pattern : ustring) (index_attr : IndexAttr) (self : Locals)
    : list ustring * Locals :=
  let index := getattr self index_attr in
  let new_ := drop index stream in
  let matches := findall pattern new_ in
  (matches,
   if nonempty matches
   then setattr self index_attr (index + length new_)
   else self).

(** [Responder.submit] is a generator function: the call only makes the
    generator. *)
Definition Responder_submit (pattern response stream : ustring) : Generator :=
  Responder_submit_gen pattern response stream.

(** Running a generator to its end, as a [for] loop over it does: the body
    of [Responder.submit] calls [pattern_matches], then yields the response
    once per match. *)
Definition exhaust (g : Generator) (self : Locals) : list ustring * Locals :=
  match g with
  | Responder_submit_gen pattern response stream =>
    let '(matches, self) := pattern_matches stream pattern attr_index self in
    (map (fun _ => response) matches, self)
  end.

Definition FailingResponder_submit
    (pattern response failure_sentinel stream : ustring) (self : Locals)
    : res Generator * Locals :=
  let response_ := Responder_submit pattern response stream in
  let '(failed, self) :=
    pattern_matches stream failure_sentinel attr_failure_index self in
  if tried self && nonempty failed
  then (Raise (ResponseFailure pattern failure_sentinel), self)
  else
    let self := if Generator__bool__ response_ then set_tried self true else self in
    (Ok response_, self).

(** [watcher.submit(stream)], by the class of the watcher. *)
Definition submit (w : Watcher) (stream : ustring) (self : Locals)
    : res Generator * Locals :=
  match w with
  | Responder pattern response =>
    (Ok (Responder_submit pattern response stream), self)
  | FailingResponder pattern response failure_sentinel =>
    FailingResponder_submit pattern response failure_sentinel stream self
  end.

(** [list(watcher.submit(stream))]: the call, then the generator run to its
    end. *)
Definition responses (w : Watcher) (stream : ustring) (self : Locals)
    : res (list ustring) * Locals :=
  match submit w stream self with
  | (Ok g, self) => let '(rs, self) := exhaust g self in (Ok rs, self)
  | (Raise e, self) => (Raise e, self)
  end.

(** *** A watcher object and its threads *)

Record WatcherObject := mkWatcherObject {
  params : Watcher;
  per_thread : gmap nat Locals;
}.

Definition new_watcher (w : Watcher) : WatcherObject :=
  {| params := w; per_thread := ∅ |}.

(** The attributes thread [t] sees. *)
Definition locals_of (obj : WatcherObject) (t : nat) : Locals :=
  default (Watcher__init__ (params obj)) (per_thread obj !! t).

Definition with_locals (obj : WatcherObject) (t : nat) (l : Locals)
    : WatcherObject :=
  {| params := params obj; per_thread := <[t := l]> (per_thread obj) |}.

(** Thread [t] runs [list(obj.submit(stream))]. *)
Definition responses_in (t : nat) (stream : ustring) (obj : WatcherObject)
    : res (list ustring) * WatcherObject :=
  let '(r, l) := responses (params obj) stream (locals_of obj t) in
  (r, with_locals obj t l).

(** Thread [t] submits the streams one after the other; the outcomes, in
    order. *)
Fixpoint submit_each (t : nat) (streams : list ustring) (obj : WatcherObject)
    : list (res (list ustring)) * WatcherObject :=
  match streams with
  | [] => ([], obj)
  | stream :: rest =>
    let '(r, obj) := responses_in t stream obj in
    let '(rs, obj) := submit_each t rest obj in
    (r :: rs, obj)
  end.
End Watchers.

(** ** The world outside the runner *)

(** One answer of [os.read] on a descriptor of the child: bytes (none at
    the end of the stream), or an [OSError] with its message. *)
Inductive ReadEvent :=
| read_data (data : bytes)
| read_error (msg : string).

(** What [wait] can raise in the main thread: Ctrl-C during a sleep, or an
    [OSError] of the completion check. *)
Inductive WaitError :=
| wait_interrupted
| wait_failed (msg : string).

Definition exn_of_wait (e : WaitError) : Exn :=
  match e with
  | wait_interrupted => KeyboardInterrupt
  | wait_failed msg => OSError msg
  end.

(** What the platform, the operating system and the child do during one
    [run].  The loop of [handle_stdin] is not run as part of it: the world
    says how its thread ended. *)
Record World := mkWorld {
  WINDOWS : bool;
  pty_module : bool;                  (* [import pty] worked *)
  stdin_has_fileno : bool;            (* [has_fileno(sys.stdin)] *)
  os_environ : gmap string string;
  preferred_encoding : string;        (* what [default_encoding()] returns *)
  start_error : option string;        (* [pty.fork] or [Popen] fails with it *)
  pty_reads : list ReadEvent;         (* [os.read(parent_fd, n)], call after call *)
  stdout_reads : list ReadEvent;      (* [os.read] on the stdout pipe *)
  stderr_reads : list ReadEvent;      (* [os.read] on the stderr pipe *)
  stdin_write_error : option string;  (* [os.write] to the child fails with it *)
  stdin_thread_error : option Exn;    (* what the [handle_stdin] thread raised *)
  wait_error : option WaitError;      (* raised in the main thread while waiting *)
  exit_code : Z;                      (* the child's exit code *)
}.

(** ** The runner's state *)

(** The attributes of a [Local] instance, the watcher objects it may
    refer to, and what has been written so far: to our own streams (oldest
    first) and to the child's stdin. *)
Record State := mkState {
  context_config_run : gmap string PyVal;
  warned_about_pty_fallback : bool;
  watchers : PyVal;
  using_pty : bool;
  encoding : PyVal;
  heap : gmap nat WatcherObject;
  next_thread : nat;
  written : list (Stream * ustring);
  proc_stdin : list bytes;
  interrupts_sent : nat;
}.

(** [Local.__init__(context)], with the watcher objects that exist. *)
Definition Local__init__
    (config_run : gmap string PyVal) (objects : gmap nat WatcherObject) : State :=
  {| context_config_run := config_run;
     warned_about_pty_fallback := false;
     watchers := PyList [];
     using_pty := false;
     encoding := PyNone;
     heap := objects;
     next_thread := 1;
     written := [];
     proc_stdin := [];
     interrupts_sent := 0 |}.

Definition set_warned_about_pty_fallback (b : bool) (s : State) : State :=
  {| context_config_run := context_config_run s; warned_about_pty_fallback := b;
     watchers := watchers s; using_pty := using_pty s; encoding := encoding s;
     heap := heap s; next_thread := next_thread s; written := written s;
     proc_stdin := proc_stdin s; interrupts_sent := interrupts_sent s |}.

Definition set_watchers (v : PyVal) (s : State) : State :=
  {| context_config_run := context_config_run s;
     warned_about_pty_fallback := warned_about_pty_fallback s;
     watchers := v; using_pty := using_pty s; encoding := encoding s;
     heap := heap s; next_thread := next_thread s; written := written s;
     proc_stdin := proc_stdin s; interrupts_sent := interrupts_sent s |}.

Definition set_using_pty (b : bool) (s : State) : State :=
  {| context_config_run := context_config_run s;
     warned_about_pty_fallback := warned_about_pty_fallback s;
     watchers := watchers s; using_pty := b; encoding := encoding s;
     heap := heap s; next_thread := next_thread s; written := written s;
     proc_stdin := proc_stdin s; interrupts_sent := interrupts_sent s |}.

Definition set_encoding (v : PyVal) (s : State) : State :=
  {| context_config_run := context_config_run s;
     warned_about_pty_fallback := warned_about_pty_fallback s;
     watchers := watchers s; using_pty := using_pty s; encoding := v;
     heap := heap s; next_thread := next_thread s; written := written s;
     proc_stdin := proc_stdin s; interrupts_sent := interrupts_sent s |}.

Definition set_heap (h : gmap nat WatcherObject) (s : State) : State :=
  {| context_config_run := context_config_run s;
     warned_about_pty_fallback := warned_about_pty_fallback s;
     watchers := watchers s; using_pty := using_pty s; encoding := encoding s;
     heap := h; next_thread := next_thread s; written := written s;
     proc_stdin := proc_stdin s; interrupts_sent := interrupts_sent s |}.

Definition set_next_thread (n : nat) (s : State) : State :=
  {| context_config_run := context_config_run s;
     warned_about_pty_fallback := warned_about_pty_fallback s;
     watchers := watchers s; using_pty := using_pty s; encoding := encoding s;
     heap := heap s; next_thread := n; written := written s;
     proc_stdin := proc_stdin s; interrupts_sent := interrupts_sent s |}.

Definition set_written (l : list (Stream * ustring)) (s : State) : State :=
  {| context_config_run := context_config_run s;
     warned_about_pty_fallback := warned_about_pty_fallback s;
     watchers := watchers s; using_pty := using_pty s; encoding := encoding s;
     heap := heap s; next_thread := next_thread s; written := l;
     proc_stdin := proc_stdin s; interrupts_sent := interrupts_sent s |}.

Definition set_proc_stdin (l : list bytes) (s : State) : State :=
  {| context_config_run := context_config_run s;
     warned_about_pty_fallback := warned_about_pty_fallback s;
     watchers := watchers s; using_pty := using_pty s; encoding := encoding s;
     heap := heap s; next_thread := next_thread s; written := written s;
     proc_stdin := l; interrupts_sent := interrupts_sent s |}.

Definition set_interrupts_sent (n : nat) (s : State) : State :=
  {| context_config_run := context_config_run s;
     warned_about_pty_fallback := warned_about_pty_fallback s;
     watchers := watchers s; using_pty := using_pty s; encoding := encoding s;
     heap := heap s; next_thread := next_thread s; written := written s;
     proc_stdin := proc_stdin s; interrupts_sent := n |}.

(** ** The monad of runner code: state that survives an exception *)

Definition M (A : Type) : Type := State -> res A * State.

#[global] Instance M_ret : MRet M := fun _ a s => (Ok a, s).
#[global] Instance M_bind : MBind M := fun _ _ f m s =>
  match m s with
  | (Ok a, s') => f a s'
  | (Raise e, s') => (Raise e, s')
  end.

Definition lift {A} (r : res A) : M A := fun s => (r, s).
Definition raise {A} (e : Exn) : M A := fun s => (Raise e, s).
Definition get {A} (f : State -> A) : M A := fun s => (Ok (f s), s).
Definition modify (f : State -> State) : M unit := fun s => (Ok tt, f s).

(** [for x in l: body(x)], stopping at the first exception. *)
Fixpoint for_each {A} (l : list A) (body : A -> M unit) : M unit :=
  match l with
  | [] => mret tt
  | x :: rest => body x ;; for_each rest body
  end.

(** [stream.write(string)] on one of our streams.  The write is taken to
    succeed: a stream that cannot encode the text, or is closed, is not
    modelled. *)
Definition stream_write (stream : Stream) (string : ustring) : M unit :=
  modify (fun s => set_written (written s ++ [(stream, string)]) s).

(** [d[key]]. *)
Definition getitem (d : gmap string PyVal) (key : string) : res PyVal :=
  match d !! key with
  | Some v => Ok v
  | None => Raise (KeyError key)
  end.

(** ** Text helpers *)

(** [needle in hay] on strings. *)
Fixpoint contains (needle hay : string) : bool :=
  String.prefix needle hay ||
  match hay with
  | EmptyString => false
  | String _ rest => contains needle rest
  end.

Fixpoint startswith (s prefix : ustring) : bool :=
  match prefix, s with
  | [], _ => true
  | p :: prefix', c :: s' => N.eqb p c && startswith s' prefix'
  | _ :: _, [] => false
  end.

(** [s.replace(old, new)] for a non-empty [old]: left to right, occurrences
    that do not overlap.  [skip] counts the characters of a replaced
    occurrence still to pass over. *)
Fixpoint replace_from (old new : ustring) (skip : nat) (s : ustring) : ustring :=
  match s with
  | [] => []
  | c :: s' =>
    match skip with
    | S k => replace_from old new k s'
    | O =>
      if startswith s old
      then new ++ replace_from old new (length old - 1) s'
      else c :: replace_from old new 0 s'
    end
  end.

Definition str_replace (s old new : ustring) : ustring :=
  replace_from old new 0 s.

Definition CR : N := 13.
Definition LF : N := 10.
Definition ESC : N := 27.

(** ** The Local runner *)

Definition pty_fallback_warning : ustring :=
  u "WARNING: stdin has no fileno; falling back to non-pty execution!" ++ [LF].

Definition no_pty_module_message : string :=
  "You indicated pty=True, but your platform doesn't support the 'pty' module!".

(** [Runner.should_use_pty], the default of the base class. *)
Definition Runner_should_use_pty (pty fallback : PyVal) : PyVal := pty.

Section Local.
  Context `{PythonLib} (w : World).

(** [Local.should_use_pty(pty, fallback)]. *)
Definition should_use_pty (pty fallback : PyVal) : M bool :=
  if py_truthy pty then
    if negb (stdin_has_fileno w) && py_truthy fallback then
      warned ← get warned_about_pty_fallback;
      (if negb warned then
         stream_write sys_stderr pty_fallback_warning;;
         modify (set_warned_about_pty_fallback true)
       else mret tt);;
      mret false
    else mret true
  else mret false.

(** The loop at the head of [_run_opts]: every key of the configuration
    gets the value popped from [kwargs], or the configured one when that is
    [None] or absent.  Returns [opts] and what is left of [kwargs]. *)
Definition _run_opts_loop (config kwargs : gmap string PyVal)
    : gmap string PyVal * gmap string PyVal :=
  map_fold
    (fun key value '(opts, kwargs) =>
       let runtime := default PyNone (kwargs !! key) in
       (<[key := if py_is_None runtime then value else runtime]> opts,
        delete key kwargs))
    (∅, kwargs) config.

(** [_run_opts(kwargs)]: what is left of [kwargs] after the loop is not
    looked at. *)
Definition _run_opts (kwargs : gmap string PyVal)
    : M (gmap string PyVal * PyVal * PyVal * PyVal) :=
  config ← get context_config_run;
  let opts := (_run_opts_loop config kwargs).1 in
  hide ← lift (getitem opts "hide");
  let opts := if py_is_True hide then <["echo" := PyBool false]> opts else opts in
  hide ← lift (getitem opts "hide");
  hide ← lift (normalize_hide hide);
  let opts := <["hide" := PyTuple hide]> opts in
  out_stream ← lift (getitem opts "out_stream");
  let out_stream := if py_is_None out_stream then PyFile sys_stdout else out_stream in
  err_stream ← lift (getitem opts "err_stream");
  let err_stream := if py_is_None err_stream then PyFile sys_stderr else err_stream in
  in_stream ← lift (getitem opts "in_stream");
  let in_stream := if py_is_None in_stream then PyFile sys_stdin else in_stream in
  pty ← lift (getitem opts "pty");
  fallback ← lift (getitem opts "fallback");
  use_pty ← should_use_pty pty fallback;
  modify (set_using_pty use_pty);;
  watchers ← lift (getitem opts "watchers");
  (if py_truthy watchers then modify (set_watchers watchers) else mret tt);;
  mret (opts, out_stream, err_stream, in_stream).

(** [generate_env(env, replace_env)]. *)
Definition generate_env (env replace_env : PyVal) : res PyVal :=
  if py_truthy replace_env then Ok env
  else match env with
       | PyDict env => Ok (PyDict (env ∪ os_environ w))
       | _ => Raise TypeError
       end.

(** [decode(data)]: the handler is always ['replace']. *)
Definition decode (data : bytes) : M ustring :=
  encoding ← get encoding;
  lift (bytes_decode data encoding replace).

(** [write_our_output(stream, string)], write and flush. *)
Definition write_our_output (stream : PyVal) (string : ustring) : M unit :=
  match stream with
  | PyFile f => stream_write f string
  | _ => raise AttributeError
  end.

(** [Local._write_proc_stdin(data)]: a broken pipe is ignored. *)
Definition _write_proc_stdin (data : bytes) : M unit :=
  match stdin_write_error w with
  | None => modify (fun s => set_proc_stdin (proc_stdin s ++ [data]) s)
  | Some msg =>
    if negb (contains "Broken pipe" msg) then raise (OSError msg) else mret tt
  end.

Definition write_proc_stdin (data : ustring) : M unit :=
  encoding ← get encoding;
  encoded ← lift (str_encode data encoding);
  _write_proc_stdin encoded.

(** [Local.read_proc_stdout], given what [os.read] answers. *)
Definition read_proc_stdout (ev : ReadEvent) : M (option bytes) :=
  using_pty ← get using_pty;
  if (using_pty : bool) then
    match ev with
    | read_data data => mret (Some data)
    | read_error msg =>
      if negb (contains "Input/output error" msg) then raise (OSError msg)
      else mret None
    end
  else
    match ev with
    | read_data data => mret (Some data)
    | read_error msg => raise (OSError msg)
    end.

Definition read_proc_stderr (ev : ReadEvent) : M (option bytes) :=
  match ev with
  | read_data data => mret (Some data)
  | read_error msg => raise (OSError msg)
  end.

(** The items of [self.watchers], as [for watcher in self.watchers] sees
    them. *)
Definition iter (v : PyVal) : res (list PyVal) :=
  match v with
  | PyList items | PyTuple items => Ok items
  | _ => Raise TypeError
  end.

(** [respond(buffer_, indices)] in thread [t]: every watcher is given the
    whole stream so far, and each of its responses goes to the child. *)
Definition respond (t : nat) (buffer_ : list ustring) : M unit :=
  let stream := concat buffer_ in
  watchers ← get watchers;
  watchers ← lift (iter watchers);
  for_each watchers (fun watcher =>
    match watcher with
    | PyWatcher addr =>
      objects ← get heap;
      match objects !! addr with
      | Some obj =>
        let '(r, obj) := responses_in t stream obj in
        modify (fun s => set_heap (<[addr := obj]> (heap s)) s);;
        rs ← lift r;
        for_each rs write_proc_stdin
      | None => raise AttributeError
      end
    | _ => raise AttributeError
    end).

(** [_handle_output] over [read_proc_output(reader)], in thread [t]: read
    until a read gives nothing; each chunk is decoded, written to [output]
    unless hidden, appended to [buffer_], and shown to the watchers.
    [reads] is what [os.read] answers, call after call; once it is used up
    the stream is at its end.  Returns the buffer. *)
Fixpoint _handle_output
    (t : nat) (buffer_ : list ustring) (hide : bool) (output : PyVal)
    (reader : ReadEvent -> M (option bytes)) (reads : list ReadEvent)
    : M (list ustring) :=
  match reads with
  | [] => mret buffer_
  | ev :: reads =>
    data ← reader ev;
    match data with
    | None | Some [] => mret buffer_
    | Some data =>
      data ← decode data;
      (if negb hide then write_our_output output data else mret tt);;
      let buffer_ := buffer_ ++ [data] in
      respond t buffer_;;
      _handle_output t buffer_ hide output reader reads
    end
  end.

Definition handle_stdout (t : nat) (buffer_ : list ustring) (hide : bool)
    (output : PyVal) : M (list ustring) :=
  using_pty ← get using_pty;
  _handle_output t buffer_ hide output read_proc_stdout
    (if (using_pty : bool) then pty_reads w else stdout_reads w).

Definition handle_stderr (t : nat) (buffer_ : list ustring) (hide : bool)
    (output : PyVal) : M (list ustring) :=
  _handle_output t buffer_ hide output read_proc_stderr (stderr_reads w).

(** [Local.start(command, shell, env)].  Of the ways [pty.fork] and [Popen]
    can fail, the [OSError] is modelled; a [ValueError] for a command that
    cannot be passed on (a NUL character in it) is not. *)
Definition start (command : string) (shell env : PyVal) : M unit :=
  using_pty ← get using_pty;
  if using_pty && negb (pty_module w) then raise (SystemExit no_pty_module_message)
  else match start_error w with
       | Some msg => raise (OSError msg)
       | None => mret tt
       end.

Definition returncode : M Z := mret (exit_code w).

Definition stop : M unit := mret tt.
End Local.

Section Run.
  Context `{PythonLib} (w : World).

(** Running a thread body: what it raised is kept for [t.exception()]. *)
Definition catch {A} (body : M A) : M (res A) :=
  fun s => let '(r, s) := body s in (Ok r, s).

Definition fresh_thread : M nat :=
  fun s => (Ok (next_thread s), set_next_thread (S (next_thread s)) s).

(** What [print("\033[1;37m{0}\033[0m".format(command))] writes. *)
Definition echo_line (command : string) : ustring :=
  [ESC] ++ u "[1;37m" ++ u command ++ [ESC] ++ u "[0m" ++ [LF].

(** [item in container] for a tuple or a list. *)
Definition py_contains (container item : PyVal) : res bool :=
  match container with
  | PyTuple items | PyList items => Ok (py_in item items)
  | _ => Raise TypeError
  end.

Definition send_interrupt : M unit :=
  modify (fun s => set_interrupts_sent (S (interrupts_sent s)) s).

Definition buffer_of (r : res (list ustring)) : list ustring :=
  match r with Ok buffer_ => buffer_ | Raise _ => [] end.

(** [_run_body(command, **kwargs)].  The threads are run one after the
    other, each to its end, in the order the code starts them; the join
    timeout is not modelled.  Of the [handle_stdin] thread a run takes only
    the way it ended, from the world: what the thread forwards to the child
    and echoes is the matter of [handle_stdin] below, by itself.  Ctrl-C is
    modelled where the code expects it, during [wait]. *)
Definition _run_body (command : string) (kwargs : gmap string PyVal) : M Result :=
  '(opts, out_stream, err_stream, in_stream) ← _run_opts w kwargs;
  shell ← lift (getitem opts "shell");
  env ← lift (getitem opts "env");
  replace_env ← lift (getitem opts "replace_env");
  env ← lift (generate_env w env replace_env);
  echo ← lift (getitem opts "echo");
  (if py_truthy echo then stream_write sys_stdout (echo_line command) else mret tt);;
  start w command shell env;;
  encoding ← lift (getitem opts "encoding");
  modify (set_encoding
            (if py_truthy encoding then encoding else PyStr (preferred_encoding w)));;
  hide ← lift (getitem opts "hide");
  hide_out ← lift (py_contains hide (PyStr "out"));
  echo_stdin ← lift (getitem opts "echo_stdin");
  self_using_pty ← get using_pty;
  hide_err ← (if negb self_using_pty
              then lift (py_contains hide (PyStr "err")) else mret false);
  (* the IO threads *)
  t ← fresh_thread;
  out ← catch (handle_stdout w t [] hide_out out_stream);
  let in_ := stdin_thread_error w in
  err ← (if negb self_using_pty
         then t ← fresh_thread; catch (handle_stderr w t [] hide_err err_stream)
         else mret (Ok []));
  (* wait, then tie things off *)
  let exception := exn_of_wait <$> wait_error w in
  match exception with
  | Some KeyboardInterrupt => send_interrupt
  | _ => mret tt
  end;;
  let exceptions :=
    option_list (raised out) ++ option_list in_ ++ option_list (raised err) in
  match exception with
  | Some e => raise e
  | None =>
    if nonempty exceptions then raise (ThreadException exceptions)
    else
      let stdout := concat (buffer_of out) in
      let stderr := concat (buffer_of err) in
      let stdout :=
        if WINDOWS w
        then str_replace (str_replace stdout [CR; LF] [LF]) [CR] [LF]
        else stdout in
      let stderr :=
        if WINDOWS w
        then str_replace (str_replace stderr [CR; LF] [LF]) [CR] [LF]
        else stderr in
      exited ← returncode w;
      pty ← get using_pty;
      let result := Result__init__ command shell env stdout stderr exited pty in
      if Result__bool__ result then mret result
      else
        warn ← lift (getitem opts "warn");
        if py_truthy warn then mret result else raise (Failure result)
  end.

(** [run(command, **kwargs)]: [stop] runs whatever [_run_body] did. *)
Definition run (command : string) (kwargs : gmap string PyVal) : M Result :=
  r ← catch (_run_body command kwargs);
  stop;;
  lift r.
End Run.

(** ** An instance of the library *)

(** [re.findall] for a pattern without special characters, which matches
    its own text: the occurrences of [pattern], left to right and not
    overlapping.  The empty pattern matches before every character and at the
    end. *)
Fixpoint literal_findall_from (pattern : ustring) (skip : nat) (s : ustring)
    : list ustring :=
  match s with
  | [] =>
    match skip, pattern with
    | O, [] => [[]]
    | _, _ => []
    end
  | c :: s' =>
    match skip with
    | S k => literal_findall_from pattern k s'
    | O =>
      if startswith s pattern
      then pattern :: literal_findall_from pattern (length pattern - 1) s'
      else literal_findall_from pattern 0 s'
    end
  end.

Definition literal_findall (pattern s : ustring) : list ustring :=
  literal_findall_from pattern 0 s.

Definition byte_of_N (n : N) : byte := default x00 (Byte.of_N n).

Definition ascii_codec : Codec :=
  {| decode_at b _ :=
       if (Byte.to_N b <? 128)%N then Char (Byte.to_N b) 0 else Undecodable 0;
     encode_char cp :=
       if (cp <? 128)%N then Some [byte_of_N cp] else None |}.

Definition latin_1_codec : Codec :=
  {| decode_at b _ := Char (Byte.to_N b) 0;
     encode_char cp :=
       if (cp <? 256)%N then Some [byte_of_N cp] else None |}.

Definition between (lo hi : N) (b : byte) : bool :=
  ((lo <=? Byte.to_N b) && (Byte.to_N b <=? hi))%N.

(** The six low bits of a continuation byte. *)
Definition low6 (b : byte) : N := (Byte.to_N b - 0x80)%N.

(** UTF-8 as Python 3 decodes it: well-formed sequences only (no overlong
    forms, no surrogates, nothing above U+10FFFF); an ill-formed sequence is
    undecodable up to the byte where it stops being a prefix of a
    well-formed one. *)
Definition utf_8_decode_at (b : byte) (rest : bytes) : Decoded :=
  let n := Byte.to_N b in
  if (n <? 0x80)%N then Char n 0
  else if (n <? 0xC2)%N then Undecodable 0
  else if (n <? 0xE0)%N then
    match rest with
    | b1 :: _ =>
      if between 0x80 0xBF b1
      then Char ((n - 0xC0) * 64 + low6 b1)%N 1
      else Undecodable 0
    | [] => Undecodable 0
    end
  else if (n <? 0xF0)%N then
    let lo := if (n =? 0xE0)%N then 0xA0%N else 0x80%N in
    let hi := if (n =? 0xED)%N then 0x9F%N else 0xBF%N in
    match rest with
    | b1 :: rest1 =>
      if between lo hi b1 then
        match rest1 with
        | b2 :: _ =>
          if between 0x80 0xBF b2
          then Char (((n - 0xE0) * 64 + low6 b1) * 64 + low6 b2)%N 2
          else Undecodable 1
        | [] => Undecodable 1
        end
      else Undecodable 0
    | [] => Undecodable 0
    end
  else if (n <? 0xF5)%N then
    let lo := if (n =? 0xF0)%N then 0x90%N else 0x80%N in
    let hi := if (n =? 0xF4)%N then 0x8F%N else 0xBF%N in
    match rest with
    | b1 :: rest1 =>
      if between lo hi b1 then
        match rest1 with
        | b2 :: rest2 =>
          if between 0x80 0xBF b2 then
            match rest2 with
            | b3 :: _ =>
              if between 0x80 0xBF b3
              then Char ((((n - 0xF0) * 64 + low6 b1) * 64 + low6 b2) * 64
                         + low6 b3)%N 3
              else Undecodable 2
            | [] => Undecodable 2
            end
          else Undecodable 1
        | [] => Undecodable 1
        end
      else Undecodable 0
    | [] => Undecodable 0
    end
  else Undecodable 0.

Definition utf_8_encode_char (cp : N) : option bytes :=
  if (cp <? 0x80)%N then Some [byte_of_N cp]
  else if (cp <? 0x800)%N then
    Some [byte_of_N (0xC0 + cp / 64); byte_of_N (0x80 + cp mod 64)]%N
  else if (cp <? 0x10000)%N then
    if ((0xD800 <=? cp) && (cp <=? 0xDFFF))%N then None
    else Some [byte_of_N (0xE0 + cp / 4096);
               byte_of_N (0x80 + (cp / 64) mod 64);
               byte_of_N (0x80 + cp mod 64)]%N
  else if (cp <? 0x110000)%N then
    Some [byte_of_N (0xF0 + cp / 262144);
          byte_of_N (0x80 + (cp / 4096) mod 64);
          byte_of_N (0x80 + (cp / 64) mod 64);
          byte_of_N (0x80 + cp mod 64)]%N
  else None.

Definition utf_8_codec : Codec :=
  {| decode_at := utf_8_decode_at; encode_char := utf_8_encode_char |}.

(** Three of the names Python's registry knows. *)
Definition builtin_codecs (name : string) : option Codec :=
  if String.eqb name "ascii" then Some ascii_codec
  else if String.eqb name "latin-1" then Some latin_1_codec
  else if String.eqb name "utf-8" then Some utf_8_codec
  else None.

(** The library used to run the model on examples: literal patterns and
    the three codecs above. *)
Definition example_lib : PythonLib :=
  {| findall := literal_findall; codecs_lookup := builtin_codecs |}.

(** Python's [undefined] codec: every conversion raises, and the error
    handler is ignored.  (The real codec raises for the empty string as
    well; the runner never decodes an empty chunk.) *)
Definition undefined_codec : Codec :=
  {| decode_at _ _ := Refused; encode_char _ := None |}.

(** The registry of [example_lib] with [undefined] added. *)
Definition lib_with_undefined : PythonLib :=
  {| findall := literal_findall;
     codecs_lookup name :=
       if String.eqb name "undefined" then Some undefined_codec
       else builtin_codecs name |}.

(** ** Example data *)

(** The default options of [run], as the configuration of a context holds
    them (the table of defaults in the specification, section 6). *)
Definition default_config_run : gmap string PyVal :=
  list_to_map
    [("shell", PyStr "/bin/bash"); ("warn", PyBool false); ("hide", PyNone);
     ("pty", PyBool false); ("fallback", PyBool true); ("echo", PyBool false);
     ("env", PyDict ∅); ("replace_env", PyBool false); ("encoding", PyNone);
     ("out_stream", PyNone); ("err_stream", PyNone); ("in_stream", PyNone);
     ("watchers", PyList []); ("echo_stdin", PyNone)].

(** A well-behaved child that writes [out] and [err] and exits with
    [code], on a POSIX platform with a terminal. *)
Definition quiet_world (out err : list bytes) (code : Z) : World :=
  {| WINDOWS := false;
     pty_module := true;
     stdin_has_fileno := true;
     os_environ := {["HOME" := "/root"]};
     preferred_encoding := "utf-8";
     start_error := None;
     pty_reads := map read_data (out ++ err) ++ [read_error "[Errno 5] Input/output error"];
     stdout_reads := map read_data out;
     stderr_reads := map read_data err;
     stdin_write_error := None;
     stdin_thread_error := None;
     wait_error := None;
     exit_code := code |}.

(** The bytes of an ASCII string. *)
Definition b (s : string) : bytes := list_byte_of_string s.

(** ** Sequences of calls on one runner *)

(** One call of [should_use_pty]: the world at the time of the call, and
    the two arguments. *)
Definition PtyCall : Type := World * PyVal * PyVal.

(** Successive calls of [should_use_pty] on the same instance. *)
Fixpoint should_use_pty_each (calls : list PtyCall) : M (list bool) :=
  match calls with
  | [] => mret []
  | (w, pty, fallback) :: rest =>
    use_pty ← should_use_pty w pty fallback;
    others ← should_use_pty_each rest;
    mret (use_pty :: others)
  end.

(** A call that asks for a pty, allows the fallback, and finds [sys.stdin]
    without a file descriptor. *)
Definition falls_back (call : PtyCall) : bool :=
  let '(w, pty, fallback) := call in
  py_truthy pty && negb (stdin_has_fileno w) && py_truthy fallback.

(** ** The chunks of a stream *)

(** The chunks a reader loop gets from successive answers of [os.read]
    before the stream ends: at the first empty answer, at the first error, or
    when the answers are used up. *)
Fixpoint chunks_read (reads : list ReadEvent) : list bytes :=
  match reads with
  | read_data (byte :: data) :: rest => (byte :: data) :: chunks_read rest
  | _ => []
  end.

(** The [Result] an outcome of [run] carries: the one returned, or the one
    wrapped in a [Failure]. *)
Definition result_of (outcome : res Result) : option Result :=
  match outcome with
  | Ok r => Some r
  | Raise (Failure r) => Some r
  | Raise _ => None
  end.

(** ** What a computation can raise *)

(** [raises_only P m]: whatever state [m] starts in, an exception it ends
    with satisfies [P]. *)
Definition raises_only {A} (P : Exn -> Prop) (m : M A) : Prop :=
  forall (s : State) (e : Exn) (s' : State), m s = (Raise e, s') -> P e.

(** The exceptions of the code before the exit code is looked at: anything
    but a decoding error and a [Failure]. *)
Definition ordinary (e : Exn) : Prop :=
  match e with
  | UnicodeDecodeError | Failure _ => False
  | _ => True
  end.

(** [preserves f m]: [m] leaves the part [f] of the state as it found it,
    whether it returns or raises. *)
Definition preserves {A B} (f : State -> B) (m : M A) : Prop :=
  forall (s : State) (o : res A) (s' : State), m s = (o, s') -> f s' = f s.

(** The text [_run_body] stores for a captured stream: on Windows the
    line ends are turned into ["\n"]. *)
Definition captured (w : World) (text : ustring) : ustring :=
  if WINDOWS w
  then str_replace (str_replace text [CR; LF] [LF]) [CR] [LF]
  else text.

(** ** Line ends *)

(** Reading a text with universal newlines: ["\r\n"] and a ["\r"] on its
    own both become ["\n"], in one pass. *)
Fixpoint universal_newlines (text : ustring) : ustring :=
  match text with
  | [] => []
  | c :: rest =>
    if N.eqb c CR then
      match rest with
      | c' :: rest' =>
        if N.eqb c' LF then LF :: universal_newlines rest'
        else LF :: universal_newlines rest
      | [] => [LF]
      end
    else c :: universal_newlines rest
  end.

(** ** The stdin thread *)

(** What [read_byte(input_)] returned: a [bytes] object or a [str]. *)
Inductive ByteRead :=
| read_bytes (data : bytes)
| read_str (text : ustring).

(** One turn of the loop of [handle_stdin], as the world answers it: whether
    [ready_for_reading(input_)] holds, what [read_byte(input_)] returns if it
    is called, and whether [program_finished] is set when the loop looks. *)
Record StdinTurn := mkStdinTurn {
  ready_for_reading : bool;
  read_byte : ByteRead;
  program_finished : bool;
}.

Section Stdin.
  Context `{PythonLib} (w : World).

(** [read_our_stdin(input_)]: [None] when nothing is ready, else what was
    read, decoded if it is a non-empty [bytes]. *)
Definition read_our_stdin (turn : StdinTurn) : M (option ustring) :=
  if ready_for_reading turn then
    match read_byte turn with
    | read_bytes [] => mret (Some [])
    | read_bytes data => text ← decode data; mret (Some text)
    | read_str text => mret (Some text)
    end
  else mret None.

(** [should_echo_stdin(input_, output)]; [isatty] is [isatty(input_)]. *)
Definition should_echo_stdin (isatty : bool) : M bool :=
  using_pty ← get using_pty;
  mret (negb using_pty && isatty).

(** [handle_stdin(input_, output, echo)] over the turns the world gives.
    Returns whether the loop has ended; it is still running when the turns
    are used up before that.  The sleep between turns and the terminal mode
    set by [character_buffered] are not modelled. *)
Fixpoint handle_stdin (isatty : bool) (output echo : PyVal)
    (turns : list StdinTurn) : M bool :=
  match turns with
  | [] => mret false
  | turn :: turns =>
    char ← read_our_stdin turn;
    match char with
    | Some [] => mret true
    | Some char =>
      write_proc_stdin w char;;
      echo ← (if py_is_None echo
              then should_echo ← should_echo_stdin isatty;
                   mret (PyBool should_echo)
              else mret echo);
      (if py_truthy echo then write_our_output output char else mret tt);;
      handle_stdin isatty output echo turns
    | None =>
      if program_finished turn then mret true
      else handle_stdin isatty output echo turns
    end
  end.
End Stdin.

(** What the loop of [handle_stdin] reads before it ends: the non-empty
    reads up to the end of the input, or up to a turn that finds nothing to
    read and the program finished. *)
Fixpoint stdin_reads (turns : list StdinTurn) : list ByteRead :=
  match turns with
  | [] => []
  | turn :: turns =>
    if ready_for_reading turn then
      match read_byte turn with
      | read_bytes [] | read_str [] => []
      | r => r :: stdin_reads turns
      end
    else if program_finished turn then [] else stdin_reads turns
  end.

(** Whether some turn ends the loop. *)
Fixpoint stdin_ends (turns : list StdinTurn) : bool :=
  match turns with
  | [] => false
  | turn :: turns =>
    if ready_for_reading turn then
      match read_byte turn with
      | read_bytes [] | read_str [] => true
      | _ => stdin_ends turns
      end
    else program_finished turn || stdin_ends turns
  end.

(** The text [read_our_stdin] makes of a read, under the encoding [enc]. *)
Definition stdin_text `{PythonLib} (enc : PyVal) (r : ByteRead) (char : ustring)
    : Prop :=
  match r with
  | read_bytes data => bytes_decode data enc replace = Ok char
  | read_str text => char = text
  end.

(** * Properties *)

(** ** Result *)

(** C2.  For every [Result] built by the constructor: [ok] holds exactly when
    [exited] is 0, [failed] is the negation of [ok], [return_code] equals
    [exited], and the truth value of the result is [ok]. *)
Theorem Result_ok_failed_return_code
    (command : string) (shell env : PyVal) (stdout stderr : ustring)
    (exited_ : Z) (pty : bool) :
  let r := Result__init__ command shell env stdout stderr exited_ pty in
  (ok r = true <-> exited r = 0%Z) /\
  failed r = negb (ok r) /\
  return_code r = exited r /\
  Result__bool__ r = ok r.
Proof.
  intros r. repeat split.
  - unfold ok. apply Z.eqb_eq.
  - unfold ok. apply Z.eqb_eq.
Qed.

(** ** normalize_hide *)

Lemma py_eq_PyStr (v : PyVal) (s : string) :
  py_eq v (PyStr s) = true <-> v = PyStr s.
Proof.
  destruct v; simpl; try (split; [discriminate | discriminate]).
  rewrite String.eqb_eq. split; congruence.
Qed.

Lemma py_eq_PyNone (v : PyVal) : py_eq v PyNone = true <-> v = PyNone.
Proof. destruct v; simpl; split; congruence. Qed.

(** [== True] and [== False] also hold of the integers 1 and 0. *)
Lemma py_eq_PyBool (v : PyVal) (x : bool) :
  py_eq v (PyBool x) = true <-> v = PyBool x \/ v = PyInt (Z.b2z x).
Proof.
  destruct v; simpl; try (split; [discriminate | intros [?|?]; discriminate]).
  - rewrite Bool.eqb_true_iff. split; [left | intros [?|?]]; congruence.
  - rewrite Z.eqb_eq. split; [right | intros [?|?]]; congruence.
Qed.

(** The values that pass the membership test of [normalize_hide]: the eight
    listed ones, and the integers Python equates with [False] and [True]. *)
Lemma py_in_hide_vals (v : PyVal) :
  py_in v hide_vals = true <->
  In v hide_vals \/ v = PyInt 0 \/ v = PyInt 1.
Proof.
  unfold py_in, hide_vals. simpl.
  rewrite !orb_true_iff, !py_eq_PyStr, !py_eq_PyBool, py_eq_PyNone. simpl.
  intuition congruence.
Qed.

(** C7, amended.  [normalize_hide] maps unset and false to the empty tuple, true and
    ["both"] to (out, err), ["stdout"] and ["out"] to (out,), ["stderr"] and
    ["err"] to (err,); a value is accepted exactly when it equals (Python's
    [==]) one of these eight, and any other value raises the [ValueError]. *)
Theorem normalize_hide_accepts_exactly :
  normalize_hide PyNone = Ok [] /\
  normalize_hide (PyBool false) = Ok [] /\
  normalize_hide (PyBool true) = Ok [PyStr "out"; PyStr "err"] /\
  normalize_hide (PyStr "both") = Ok [PyStr "out"; PyStr "err"] /\
  normalize_hide (PyStr "stdout") = Ok [PyStr "out"] /\
  normalize_hide (PyStr "out") = Ok [PyStr "out"] /\
  normalize_hide (PyStr "stderr") = Ok [PyStr "err"] /\
  normalize_hide (PyStr "err") = Ok [PyStr "err"] /\
  forall val : PyVal,
    ((exists hide, normalize_hide val = Ok hide) <->
     (exists a, In a hide_vals /\ py_eq val a = true)) /\
    ((forall a, In a hide_vals -> py_eq val a = false) ->
     normalize_hide val = Raise (ValueError val hide_vals)).
Proof.
  repeat (split; [reflexivity |]).
  intros val.
  assert (Hin : py_in val hide_vals = true <->
                exists a, In a hide_vals /\ py_eq val a = true).
  { unfold py_in. apply existsb_exists. }
  unfold normalize_hide. destruct (py_in val hide_vals) eqn:Hval; simpl.
  - split.
    + split; [intros _; apply Hin; reflexivity |].
      intros _.
      repeat match goal with
             | |- context [if ?c then _ else _] => destruct c
             end; eauto.
    + intros Hnone. destruct (proj1 Hin eq_refl) as (a & Ha & Heq).
      rewrite (Hnone a Ha) in Heq. discriminate.
  - split; [| reflexivity].
    split; [intros [hide Hhide]; discriminate |].
    intros Hex. apply Hin in Hex. discriminate.
Qed.

Lemma normalize_hide_accepts_exactly_witness :
  normalize_hide (PyStr "stdin") =
  Raise (ValueError (PyStr "stdin") hide_vals).
Proof.
  apply (proj2 (proj2 (proj2 (proj2 (proj2 (proj2 (proj2 (proj2
    normalize_hide_accepts_exactly))))))) (PyStr "stdin")).
  intros a Ha. simpl in Ha.
  repeat (destruct Ha as [<- | Ha]; [reflexivity |]). destruct Ha.
Defined.

(** C7, as stated, fails for the integers 1 and 0: they are none of the
    eight values the claim lists, and [normalize_hide] accepts them, as it
    accepts [True] and [False], because [in] compares with [==]. *)
Lemma normalize_hide_accepts_integers :
  (~ In (PyInt 1) hide_vals) /\
  normalize_hide (PyInt 1) = Ok [PyStr "out"; PyStr "err"] /\
  (~ In (PyInt 0) hide_vals) /\
  normalize_hide (PyInt 0) = Ok [].
Proof.
  repeat split; try reflexivity;
    (intros Hin; simpl in Hin;
     repeat (destruct Hin as [Hin | Hin]; [discriminate Hin |]); exact Hin).
Qed.

(** What [normalize_hide] does with the two integers. *)
Example normalize_hide_int :
  normalize_hide (PyInt 1) = Ok [PyStr "out"; PyStr "err"] /\
  normalize_hide (PyInt 0) = Ok [] /\
  normalize_hide (PyInt 2) = Raise (ValueError (PyInt 2) hide_vals).
Proof. repeat split. Qed.

(** ** Responder *)

Section ResponderProperties.
  Context `{PythonLib}.

Lemma locals_of_with_locals (obj : WatcherObject) (t t' : nat) (l : Locals) :
  locals_of (with_locals obj t l) t' =
  if decide (t = t') then l else locals_of obj t'.
Proof.
  unfold locals_of, with_locals. simpl.
  rewrite lookup_insert. destruct (decide (t = t')); reflexivity.
Qed.

Lemma nonempty_false {A} (l : list A) : nonempty l = false <-> l = [].
Proof. destruct l; simpl; split; congruence. Qed.

(** What one [submit] of a [Responder] gives thread [t], and where it
    leaves the cursor of [t]. *)
Lemma Responder_responses_in
    (pattern response : ustring) (t : nat) (stream : ustring)
    (obj : WatcherObject) :
  params obj = Responder pattern response ->
  let cursor := index (locals_of obj t) in
  let matches := findall pattern (drop cursor stream) in
  (responses_in t stream obj).1 = Ok (map (fun _ => response) matches) /\
  index (locals_of (responses_in t stream obj).2 t) =
    (if nonempty matches then cursor + length (drop cursor stream) else cursor) /\
  params (responses_in t stream obj).2 = params obj.
Proof.
  intros Hparams cursor matches.
  unfold responses_in, responses, submit. rewrite Hparams. simpl.
  fold cursor. fold matches.
  rewrite locals_of_with_locals. destruct (decide (t = t)); [| congruence].
  destruct (nonempty matches); simpl; rewrite ?Hparams; auto.
Qed.

(** C5, amended.  One [submit] of a [Responder] by thread [t] looks only at
    the part of the stream beyond the cursor of [t]; it yields the response
    once per match found there; it moves the cursor of [t] past that part
    exactly when there was a match, and otherwise leaves it and yields
    nothing; the cursors of other threads are not touched; and when the
    pattern has no match in the empty string, submitting the same stream
    again yields nothing. *)
Theorem Responder_submit_scans_suffix
    (pattern response : ustring) (t : nat) (stream : ustring)
    (obj : WatcherObject) :
  params obj = Responder pattern response ->
  let cursor := index (locals_of obj t) in
  let suffix := drop cursor stream in
  let matches := findall pattern suffix in
  let obj' := (responses_in t stream obj).2 in
  (responses_in t stream obj).1 = Ok (map (fun _ => response) matches) /\
  (matches <> [] -> index (locals_of obj' t) = cursor + length suffix) /\
  (matches = [] ->
   index (locals_of obj' t) = cursor /\ (responses_in t stream obj).1 = Ok []) /\
  (forall t', t' <> t -> locals_of obj' t' = locals_of obj t') /\
  (findall pattern [] = [] -> (responses_in t stream obj').1 = Ok []).
Proof.
  intros Hparams cursor suffix matches obj'.
  destruct (Responder_responses_in pattern response t stream obj Hparams)
    as (Hr & Hidx & Hp).
  fold cursor in Hr, Hidx. fold suffix in Hr, Hidx. fold matches in Hr, Hidx.
  fold obj' in Hidx, Hp.
  split; [exact Hr |]. split; [| split; [| split]].
  - intros Hne. rewrite Hidx. destruct matches; [congruence | reflexivity].
  - intros He. rewrite Hidx, Hr, He. auto.
  - intros t' Hne. subst obj'. unfold responses_in.
    destruct (responses (params obj) stream (locals_of obj t)) as [r l].
    simpl. rewrite locals_of_with_locals.
    destruct (decide (t = t')); congruence.
  - intros Hempty.
    assert (Hp' : params obj' = Responder pattern response) by congruence.
    destruct (Responder_responses_in pattern response t stream obj' Hp')
      as (Hr' & _ & _).
    rewrite Hr', Hidx.
    destruct (nonempty matches) eqn:Hm.
    + rewrite drop_ge; [by rewrite Hempty |].
      subst suffix. rewrite length_drop. lia.
    + apply nonempty_false in Hm. fold suffix. fold matches.
      by rewrite Hm.
Qed.

(** A [FailingResponder] notes a response as tried in every [submit] that
    returns, whether or not the generator it returns yields anything. *)
Lemma FailingResponder_tried_after_submit
    (pattern response failure_sentinel stream : ustring) (self : Locals)
    (g : Generator) (self' : Locals) :
  FailingResponder_submit pattern response failure_sentinel stream self
    = (Ok g, self') ->
  tried self' = true.
Proof.
  unfold FailingResponder_submit.
  destruct (pattern_matches stream failure_sentinel attr_failure_index self)
    as [failed self1].
  destruct (tried self1 && nonempty failed); [discriminate |].
  simpl. intros [= _ <-]. reflexivity.
Qed.
(** Running the generator does not touch [tried]. *)
Lemma exhaust_tried (g : Generator) (self : Locals) :
  tried (exhaust g self).2 = tried self.
Proof.
  destruct g as [pattern response stream]. unfold exhaust, pattern_matches.
  simpl. destruct (nonempty _); reflexivity.
Qed.

(** Once [tried] is set, a sentinel found beyond the failure cursor makes
    [submit] raise, whatever was or was not emitted before. *)
Lemma FailingResponder_submit_raises
    (pattern response failure_sentinel stream : ustring) (self : Locals) :
  tried self = true ->
  findall failure_sentinel (drop (failure_index self) stream) <> [] ->
  (FailingResponder_submit pattern response failure_sentinel stream self).1
    = Raise (ResponseFailure pattern failure_sentinel).
Proof.
  intros Htried Hfound. unfold FailingResponder_submit, pattern_matches. simpl.
  destruct (findall failure_sentinel (drop (failure_index self) stream));
    [congruence |].
  simpl. rewrite Htried. reflexivity.
Qed.
End ResponderProperties.

Lemma Responder_submit_scans_suffix_witness :
  let obj := new_watcher (Responder (u "password:") (u "secret")) in
  let obj' := (@responses_in example_lib 1 (u "Enter password:") obj).2 in
  (@responses_in example_lib 1 (u "Enter password:") obj).1 = Ok [u "secret"] /\
  (@responses_in example_lib 1 (u "Enter password:") obj').1 = Ok [].
Proof.
  intros obj obj'.
  destruct (@Responder_submit_scans_suffix example_lib
              (u "password:") (u "secret") 1 (u "Enter password:") obj eq_refl)
    as (Hr & _ & _ & _ & Hagain).
  split; [exact Hr | exact (Hagain eq_refl)].
Defined.

(** C5, as stated, fails for a pattern that matches the empty string: the
    empty pattern matches four times in ["abc"], the cursor goes to 3, and a
    second [submit] of the same stream finds the empty match at the end and
    yields the response once more. *)
Lemma Responder_resubmit_counterexample :
  let obj := new_watcher (Responder (u "") (u "y")) in
  (@submit_each example_lib 1 [u "abc"; u "abc"] obj).1 =
    [Ok [u "y"; u "y"; u "y"; u "y"]; Ok [u "y"]] /\
  (@responses_in example_lib 1 (u "abc")
     (@responses_in example_lib 1 (u "abc") obj).2).1 <> Ok [].
Proof. split; [reflexivity | discriminate]. Qed.

(** C4 at the failing input: a [FailingResponder] that has emitted nothing
    (the first stream has neither the pattern nor the sentinel) raises
    [ResponseFailure] when the sentinel shows up in the second. *)
Theorem FailingResponder_raises_without_response :
  let obj :=
    new_watcher (FailingResponder (u "password:") (u "secret") (u "Sorry")) in
  (@submit_each example_lib 1 [u "hello"; u "hello Sorry"] obj).1 =
    [Ok []; Raise (ResponseFailure (u "password:") (u "Sorry"))].
Proof. reflexivity. Qed.

(** ** Reasoning in the monad *)

Lemma M_bind_Ok {A B} (m : M A) (f : A -> M B) (s : State) (b : B) (s' : State) :
  (m ≫= f) s = (Ok b, s') ->
  exists a s1, m s = (Ok a, s1) /\ f a s1 = (Ok b, s').
Proof.
  unfold mbind, M_bind. destruct (m s) as [[a | e] s1]; [eauto | discriminate].
Qed.

Lemma lift_inv {A} (r : res A) (s : State) (o : res A) (s' : State) :
  lift r s = (o, s') -> r = o /\ s' = s.
Proof. unfold lift. intros [= -> ->]. auto. Qed.

Lemma get_inv {A} (f : State -> A) (s : State) (o : res A) (s' : State) :
  get f s = (o, s') -> o = Ok (f s) /\ s' = s.
Proof. unfold get. intros [= <- <-]. auto. Qed.

Lemma modify_inv (f : State -> State) (s : State) (o : res unit) (s' : State) :
  modify f s = (o, s') -> o = Ok tt /\ s' = f s.
Proof. unfold modify. intros [= <- <-]. auto. Qed.

Lemma mret_inv {A} (a : A) (s : State) (o : res A) (s' : State) :
  mret (M := M) a s = (o, s') -> o = Ok a /\ s' = s.
Proof. unfold mret, M_ret. intros [= <- <-]. auto. Qed.

Lemma getitem_Ok (d : gmap string PyVal) (key : string) (v : PyVal) :
  getitem d key = Ok v <-> d !! key = Some v.
Proof. unfold getitem. destruct (d !! key); split; congruence. Qed.

(** Takes apart a hypothesis saying that a sequence of steps ended without
    an exception. *)
Ltac inv_Ok :=
  repeat match goal with
  | H : (_ ≫= _) _ = (Ok _, _) |- _ =>
    apply M_bind_Ok in H; destruct H as (? & ? & ? & ?)
  | H : lift _ _ = (_, _) |- _ => apply lift_inv in H; destruct H as [? ?]; subst
  | H : get _ _ = (_, _) |- _ => apply get_inv in H; destruct H as [? ?]; subst
  | H : modify _ _ = (_, _) |- _ => apply modify_inv in H; destruct H as [? ?]; subst
  | H : mret _ _ = (_, _) |- _ => apply mret_inv in H; destruct H as [? ?]; subst
  | H : Ok _ = Ok _ |- _ => injection H as H; subst
  | H : getitem _ _ = Ok _ |- _ => apply getitem_Ok in H
  end.

(** ** _run_opts *)

(** The loop of [_run_opts]: an option of the configuration gets the
    caller's value unless that is [None] or absent, and then the configured
    one; a key outside the configuration gets nothing and stays in [kwargs]. *)
Lemma _run_opts_loop_lookup (config kwargs : gmap string PyVal) (key : string) :
  (_run_opts_loop config kwargs).1 !! key =
    (fun value =>
       match kwargs !! key with
       | Some runtime => if py_is_None runtime then value else runtime
       | None => value
       end) <$> config !! key
  /\
  (_run_opts_loop config kwargs).2 !! key =
    match config !! key with
    | Some _ => None
    | None => kwargs !! key
    end.
Proof.
  unfold _run_opts_loop. revert key.
  apply (map_fold_weak_ind
    (fun (r : gmap string PyVal * gmap string PyVal) (m : gmap string PyVal) =>
       forall key,
         r.1 !! key =
           (fun value =>
              match kwargs !! key with
              | Some runtime => if py_is_None runtime then value else runtime
              | None => value
              end) <$> m !! key
         /\ r.2 !! key = match m !! key with Some _ => None | None => kwargs !! key end)).
  - intros key. simpl. rewrite !lookup_empty. auto.
  - intros i x m [opts kw] Hi IH key. simpl.
    destruct (decide (i = key)) as [-> | Hne].
    + rewrite !lookup_insert_eq, lookup_delete_eq. simpl.
      destruct (IH key) as [_ Hkw]. simpl in Hkw. rewrite Hi in Hkw. rewrite Hkw.
      split; [| reflexivity]. destruct (kwargs !! key); reflexivity.
    + rewrite !lookup_insert_ne, lookup_delete_ne by done. apply IH.
Qed.

(** An option the caller leaves out resolves to the configured default. *)
Lemma _run_opts_loop_default (config kwargs : gmap string PyVal) (key : string) :
  kwargs !! key = None ->
  (_run_opts_loop config kwargs).1 !! key = config !! key.
Proof.
  intros Hk. rewrite (proj1 (_run_opts_loop_lookup config kwargs key)), Hk.
  destruct (config !! key); reflexivity.
Qed.

(** A keyword that is not an option of the configuration changes nothing
    in the options. *)
Lemma _run_opts_loop_unknown_key
    (config kwargs : gmap string PyVal) (key : string) (v : PyVal) :
  config !! key = None ->
  (_run_opts_loop config (<[key := v]> kwargs)).1 = (_run_opts_loop config kwargs).1.
Proof.
  intros Hc. apply map_eq. intros k.
  rewrite !(proj1 (_run_opts_loop_lookup _ _ _)).
  destruct (decide (key = k)) as [<- | Hne].
  - rewrite Hc. reflexivity.
  - rewrite lookup_insert_ne by done. reflexivity.
Qed.

(** C6, amended.  When the resolved [hide] option is the boolean true, the
    options [_run_opts] returns have [echo] false, whatever the caller or the
    configuration said, and [hide] naming both streams. *)
Theorem hide_True_forces_echo_off
    (w : World) (kwargs : gmap string PyVal) (s s' : State)
    (opts : gmap string PyVal) (out_stream err_stream in_stream : PyVal) :
  (_run_opts_loop (context_config_run s) kwargs).1 !! "hide" = Some (PyBool true) ->
  _run_opts w kwargs s = (Ok (opts, out_stream, err_stream, in_stream), s') ->
  opts !! "echo" = Some (PyBool false) /\
  opts !! "hide" = Some (PyTuple [PyStr "out"; PyStr "err"]).
Proof.
  intros Hhide Hrun. unfold _run_opts in Hrun. inv_Ok.
  match goal with
  | H1 : _ !! "hide" = Some ?h, H2 : _ !! "hide" = Some (PyBool true) |- _ =>
    rewrite H2 in H1; injection H1 as <-
  end.
  simpl in *.
  match goal with
  | H : <["echo" := _]> _ !! "hide" = Some ?h |- _ =>
    rewrite lookup_insert_ne in H by done;
    match goal with
    | H2 : _ !! "hide" = Some (PyBool true) |- _ =>
      rewrite H2 in H; injection H as <-
    end
  end.
  match goal with
  | H : normalize_hide (PyBool true) = Ok ?h |- _ =>
    vm_compute in H; injection H as <-
  end.
  split.
  - rewrite lookup_insert_ne by done. apply lookup_insert_eq.
  - apply lookup_insert_eq.
Qed.

Lemma hide_True_forces_echo_off_witness :
  let kwargs : gmap string PyVal :=
    <["hide" := PyBool true]> (<["echo" := PyBool true]> ∅) in
  let s := Local__init__ default_config_run ∅ in
  exists opts out_stream err_stream in_stream s',
    _run_opts (quiet_world [] [] 0) kwargs s
      = (Ok (opts, out_stream, err_stream, in_stream), s') /\
    opts !! "echo" = Some (PyBool false).
Proof.
  intros kwargs s.
  destruct (_run_opts (quiet_world [] [] 0) kwargs s)
    as [[[[[opts o] e] i] | ex] s'] eqn:Hrun; [| vm_compute in Hrun; discriminate].
  exists opts, o, e, i, s'. split; [reflexivity |].
  exact (proj1 (hide_True_forces_echo_off (quiet_world [] [] 0) kwargs s s'
                  opts o e i eq_refl Hrun)).
Defined.

(** C6, as stated, fails for [hide="both"]: both streams are hidden, and
    [echo=True] stays, so that [run] prints the command line. *)
Lemma hide_both_keeps_echo :
  let kwargs : gmap string PyVal :=
    <["hide" := PyStr "both"]> (<["echo" := PyBool true]> ∅) in
  let s := Local__init__ default_config_run ∅ in
  let w := quiet_world [b "hi"] [] 0 in
  match (_run_opts w kwargs s).1 with
  | Ok (opts, _, _, _) =>
    opts !! "hide" = Some (PyTuple [PyStr "out"; PyStr "err"]) /\
    opts !! "echo" = Some (PyBool true)
  | Raise _ => False
  end /\
  written (@run example_lib w "echo hi" kwargs s).2
    = [(sys_stdout, echo_line "echo hi")].
Proof. vm_compute. repeat split. Qed.

(** C8: a keyword argument that is not an option of the configuration is
    dropped without an error; [run] does what it does without it. *)
Theorem run_ignores_unknown_kwarg `{PythonLib}
    (w : World) (command : string) (kwargs : gmap string PyVal)
    (key : string) (v : PyVal) (s : State) :
  context_config_run s !! key = None ->
  run w command (<[key := v]> kwargs) s = run w command kwargs s.
Proof.
  intros Hkey.
  assert (Hopts : _run_opts w (<[key := v]> kwargs) s = _run_opts w kwargs s).
  { unfold _run_opts, mbind, M_bind, get.
    rewrite (_run_opts_loop_unknown_key _ _ _ _ Hkey). reflexivity. }
  unfold run, catch, _run_body, mbind, M_bind. rewrite Hopts. reflexivity.
Qed.

Lemma run_ignores_unknown_kwarg_witness :
  let w := quiet_world [b "hi"] [] 0 in
  let s := Local__init__ default_config_run ∅ in
  @run example_lib w "echo hi" {["bogus" := PyInt 1]} s
    = @run example_lib w "echo hi" ∅ s /\
  raised (@run example_lib w "echo hi" {["bogus" := PyInt 1]} s).1 = None.
Proof.
  intros w s. split.
  - exact (@run_ignores_unknown_kwarg example_lib w "echo hi" ∅ "bogus"
             (PyInt 1) s eq_refl).
  - vm_compute. reflexivity.
Defined.

(** ** should_use_pty *)

(** One call, in closed form: the answer, and the state it leaves. *)
Lemma should_use_pty_step (w : World) (pty fallback : PyVal) (s : State) :
  should_use_pty w pty fallback s =
    (Ok (py_truthy pty && negb (falls_back (w, pty, fallback))),
     if falls_back (w, pty, fallback) && negb (warned_about_pty_fallback s)
     then set_warned_about_pty_fallback true
            (set_written (written s ++ [(sys_stderr, pty_fallback_warning)]) s)
     else s).
Proof.
  unfold should_use_pty, falls_back.
  destruct (py_truthy pty); [| reflexivity].
  destruct (stdin_has_fileno w); [reflexivity |].
  destruct (py_truthy fallback); [| reflexivity].
  unfold mbind, M_bind, get. simpl.
  destruct (warned_about_pty_fallback s); reflexivity.
Qed.

(** Calls in sequence from any state: they all return, and the warning is
    written by the first call that falls back, unless it was written before. *)
Lemma should_use_pty_each_from (calls : list PtyCall) (s : State) :
  exists results s',
    should_use_pty_each calls s = (Ok results, s') /\
    Forall2 (fun '(w, pty, fallback) use_pty =>
               use_pty = py_truthy pty && negb (falls_back (w, pty, fallback)))
            calls results /\
    warned_about_pty_fallback s' =
      warned_about_pty_fallback s || existsb falls_back calls /\
    written s' =
      written s ++
      (if negb (warned_about_pty_fallback s) && existsb falls_back calls
       then [(sys_stderr, pty_fallback_warning)] else []).
Proof.
  revert s. induction calls as [| [[w pty] fallback] calls IH]; intros s.
  - exists [], s. simpl. rewrite orb_false_r, andb_false_r, app_nil_r.
    repeat split. constructor.
  - cbn [should_use_pty_each]. unfold mbind at 1, M_bind at 1.
    rewrite should_use_pty_step. cbv beta iota.
    change (existsb falls_back ((w, pty, fallback) :: calls))
      with (falls_back (w, pty, fallback) || existsb falls_back calls).
    destruct (falls_back (w, pty, fallback)) eqn:Hfb;
      destruct (warned_about_pty_fallback s) eqn:Hw; cbn [andb negb orb];
      unfold mbind, M_bind;
      match goal with
      | |- context [should_use_pty_each calls ?s1] =>
        destruct (IH s1) as (results & s' & Heach & Hall & Hwarned & Hwritten)
      end;
      rewrite Heach; eexists _, s';
      (split; [reflexivity |]);
      (split; [constructor; [rewrite Hfb; reflexivity | exact Hall] |]);
      rewrite Hwarned, Hwritten; simpl; rewrite ?Hw; simpl;
      rewrite ?app_nil_r, <- ?app_assoc; auto.
Qed.

(** C9, amended.  Over any sequence of calls on a new instance: every call returns;
    it returns false when no pty was asked for, and false when one was asked
    for, [sys.stdin] has no file descriptor and the fallback is allowed;
    the warning is written to [sys.stderr] once if some call fell back, and
    nothing else is written. *)
Theorem should_use_pty_warns_once
    (calls : list PtyCall)
    (config : gmap string PyVal) (objects : gmap nat WatcherObject) :
  exists results s',
    should_use_pty_each calls (Local__init__ config objects) = (Ok results, s') /\
    Forall2 (fun '(w, pty, fallback) use_pty =>
               (py_truthy pty = false -> use_pty = false) /\
               (py_truthy pty = true -> stdin_has_fileno w = false ->
                py_truthy fallback = true -> use_pty = false))
            calls results /\
    written s' =
      (if existsb falls_back calls
       then [(sys_stderr, pty_fallback_warning)] else []).
Proof.
  destruct (should_use_pty_each_from calls (Local__init__ config objects))
    as (results & s' & Heach & Hall & _ & Hwritten).
  exists results, s'. split; [exact Heach |]. split; [| exact Hwritten].
  eapply Forall2_impl; [exact Hall |].
  intros [[w pty] fallback] use_pty ->. unfold falls_back.
  split.
  - intros ->. reflexivity.
  - intros -> -> ->. reflexivity.
Qed.

Lemma should_use_pty_warns_once_witness :
  let no_tty : World :=
    {| WINDOWS := false; pty_module := true; stdin_has_fileno := false;
       os_environ := ∅; preferred_encoding := "utf-8"; start_error := None;
       pty_reads := []; stdout_reads := []; stderr_reads := [];
       stdin_write_error := None; stdin_thread_error := None;
       wait_error := None; exit_code := 0 |} in
  let calls : list PtyCall :=
    [(no_tty, PyBool true, PyBool true); (no_tty, PyBool false, PyBool true);
     (no_tty, PyBool true, PyBool true)] in
  exists s',
    should_use_pty_each calls (Local__init__ default_config_run ∅)
      = (Ok [false; false; false], s') /\
    written s' = [(sys_stderr, pty_fallback_warning)].
Proof.
  intros no_tty calls.
  destruct (should_use_pty_warns_once calls default_config_run ∅)
    as (results & s' & Heach & _ & Hwritten).
  exists s'. split; [| exact Hwritten].
  rewrite Heach. f_equal.
  assert (Hr : (should_use_pty_each calls (Local__init__ default_config_run ∅)).1
               = Ok [false; false; false]) by reflexivity.
  rewrite Heach in Hr. exact Hr.
Defined.

(** C9, as stated, fails for a caller who gives streams of their own: what
    is tested is [sys.stdin] and the warning goes to [sys.stderr], whatever
    [in_stream] and [err_stream] are.  Where [sys.stdin] has no file
    descriptor the warning is written to [sys.stderr] and not to the caller's
    error stream; where it has one, a pty is used and nothing is written,
    whatever the caller's input stream is. *)
Lemma should_use_pty_ignores_caller_streams :
  let kwargs : gmap string PyVal :=
    <["pty" := PyBool true]>
      (<["in_stream" := PyFile (file_like 1)]>
         (<["err_stream" := PyFile (file_like 2)]> ∅)) in
  let s := Local__init__ default_config_run ∅ in
  let no_tty : World :=
    {| WINDOWS := false; pty_module := true; stdin_has_fileno := false;
       os_environ := ∅; preferred_encoding := "utf-8"; start_error := None;
       pty_reads := []; stdout_reads := []; stderr_reads := [];
       stdin_write_error := None; stdin_thread_error := None;
       wait_error := None; exit_code := 0 |} in
  let tty : World := quiet_world [] [] 0 in
  let streams (r : res (gmap string PyVal * PyVal * PyVal * PyVal)) :=
    match r with
    | Ok (_, _, err_stream, in_stream) => Some (err_stream, in_stream)
    | Raise _ => None
    end in
  streams (_run_opts no_tty kwargs s).1
    = Some (PyFile (file_like 2), PyFile (file_like 1)) /\
  using_pty (_run_opts no_tty kwargs s).2 = false /\
  written (_run_opts no_tty kwargs s).2 = [(sys_stderr, pty_fallback_warning)] /\
  streams (_run_opts tty kwargs s).1
    = Some (PyFile (file_like 2), PyFile (file_like 1)) /\
  using_pty (_run_opts tty kwargs s).2 = true /\
  written (_run_opts tty kwargs s).2 = [].
Proof. vm_compute. repeat split. Qed.

(** ** Which exceptions the pieces raise *)

Section RaisesOnly.
  Context {P : Exn -> Prop}.

Lemma raises_only_bind {A B} (m : M A) (f : A -> M B) :
  raises_only P m -> (forall a, raises_only P (f a)) -> raises_only P (m ≫= f).
Proof.
  intros Hm Hf s e s'. unfold mbind, M_bind.
  destruct (m s) as [[a | e1] s1] eqn:E.
  - apply Hf.
  - intros [= <- <-]. eapply Hm, E.
Qed.

Lemma raises_only_mret {A} (a : A) : raises_only P (mret a).
Proof. intros s e s'. discriminate. Qed.

Lemma raises_only_get {A} (f : State -> A) : raises_only P (get f).
Proof. intros s e s'. discriminate. Qed.

Lemma raises_only_modify (f : State -> State) : raises_only P (modify f).
Proof. intros s e s'. discriminate. Qed.

Lemma raises_only_raise {A} (e : Exn) : P e -> raises_only P (raise (A := A) e).
Proof. intros He s e' s' [= <- <-]. exact He. Qed.

Lemma raises_only_lift {A} (r : res A) :
  (forall e, r = Raise e -> P e) -> raises_only P (lift r).
Proof. intros Hr s e s' [= -> <-]. auto. Qed.

Lemma raises_only_catch {A} (m : M A) : raises_only P (catch m).
Proof. intros s e s'. unfold catch. destruct (m s). discriminate. Qed.

Lemma raises_only_for_each {A} (l : list A) (body : A -> M unit) :
  (forall x, raises_only P (body x)) -> raises_only P (for_each l body).
Proof.
  intros Hbody. induction l as [| x l IH]; simpl.
  - apply raises_only_mret.
  - apply raises_only_bind; auto.
Qed.
End RaisesOnly.

(** Applies the rules above down the structure of a computation, leaving
    the conditions on the exceptions raised. *)
Ltac raises_step :=
  first
    [ apply raises_only_mret
    | apply raises_only_get
    | apply raises_only_modify
    | apply raises_only_catch
    | apply raises_only_bind; [| intros ?]
    | apply raises_only_for_each; intros ?
    | apply raises_only_raise
    | apply raises_only_lift; intros ? ?
    | match goal with
      | |- raises_only _ (if ?c then _ else _) => destruct c
      | |- raises_only _ (match ?x with _ => _ end) => destruct x
      | |- raises_only _ (let '(_, _) := ?x in _) => destruct x
      end ].

(** ** decode *)

(** Under ['replace'] the decoding loop of a codec that calls the handler
    ends with a text, of one character for every step it made. *)
Lemma decode_from_replace_Ok (c : Codec) (data : bytes) (skip : nat) :
  consults_handler c ->
  exists text,
    decode_from c replace skip data = Ok text /\
    length text <= length data - skip.
Proof.
  intros Hc. revert skip.
  induction data as [| byte rest IH]; intros skip; simpl.
  - exists []. split; [reflexivity | simpl; lia].
  - destruct skip as [| k]; [| apply IH].
    destruct (decode_at c byte rest) as [cp more | more |] eqn:Hat;
      [| | destruct (Hc _ _ Hat)];
      destruct (IH more) as (text & -> & Hlen); simpl;
      eexists; (split; [reflexivity | simpl; lia]).
Qed.

(** From a non-empty byte string it makes a non-empty text. *)
Lemma decode_from_replace_nonempty (c : Codec) (data : bytes) (text : ustring) :
  decode_from c replace 0 data = Ok text -> (text = [] <-> data = []).
Proof.
  destruct data as [| byte rest]; simpl.
  - intros [= <-]. split; reflexivity.
  - destruct (decode_at c byte rest) as [cp more | more |]; [| | discriminate];
      destruct (decode_from c replace more rest); simpl; intros [= <-];
      split; discriminate.
Qed.

(** Under ['strict'] it may not. *)
Example decode_strict_raises :
  decode_from ascii_codec strict 0 [x68; xff] = Raise UnicodeDecodeError /\
  decode_from ascii_codec replace 0 [x68; xff] = Ok [104%N; 0xFFFD%N].
Proof. split; reflexivity. Qed.

Section DecodeProperties.
  Context `{PythonLib}.
  Hypothesis registry_ok : registry_consults_handler.

Lemma bytes_decode_replace_ordinary (data : bytes) (encoding : PyVal) (e : Exn) :
  bytes_decode data encoding replace = Raise e -> ordinary e.
Proof.
  unfold bytes_decode. destruct encoding; try (intros [= <-]; exact I).
  destruct (codecs_lookup s) as [c |] eqn:Hc; [| intros [= <-]; exact I].
  destruct (decode_from_replace_Ok c data 0 (registry_ok _ _ Hc)) as (text & -> & _).
  discriminate.
Qed.

Lemma decode_raises_ordinary (data : bytes) : raises_only ordinary (decode data).
Proof.
  unfold decode. repeat raises_step.
  eapply bytes_decode_replace_ordinary; eassumption.
Qed.
End DecodeProperties.

Create HintDb ordinary discriminated.

Lemma getitem_ordinary (d : gmap string PyVal) (key : string) (e : Exn) :
  getitem d key = Raise e -> ordinary e.
Proof. unfold getitem. destruct (d !! key); intros [= <-]. exact I. Qed.

Lemma normalize_hide_ordinary (val : PyVal) (e : Exn) :
  normalize_hide val = Raise e -> ordinary e.
Proof.
  unfold normalize_hide.
  repeat match goal with
         | |- context [if ?c then _ else _] => destruct c
         end; intros [= <-]. exact I.
Qed.

Lemma generate_env_ordinary (w : World) (env replace_env : PyVal) (e : Exn) :
  generate_env w env replace_env = Raise e -> ordinary e.
Proof.
  unfold generate_env. destruct (py_truthy replace_env); [discriminate |].
  destruct env; intros [= <-]; exact I.
Qed.

Lemma iter_ordinary (v : PyVal) (e : Exn) : iter v = Raise e -> ordinary e.
Proof. destruct v; intros [= <-]; exact I. Qed.

Lemma py_contains_ordinary (container item : PyVal) (e : Exn) :
  py_contains container item = Raise e -> ordinary e.
Proof. destruct container; intros [= <-]; exact I. Qed.

Lemma encode_with_ordinary (c : Codec) (text : ustring) (e : Exn) :
  encode_with c text = Raise e -> ordinary e.
Proof.
  induction text as [| cp rest IH]; simpl; [discriminate |].
  destruct (encode_char c cp); [| intros [= <-]; exact I].
  destruct (encode_with c rest); simpl; [discriminate |].
  intros [= <-]. auto.
Qed.

#[global] Hint Resolve getitem_ordinary normalize_hide_ordinary
  generate_env_ordinary iter_ordinary py_contains_ordinary
  encode_with_ordinary : ordinary.

Section WorkerRaises.
  Context `{PythonLib} (w : World).
  Hypothesis registry_ok : registry_consults_handler.

Lemma str_encode_ordinary (text : ustring) (encoding : PyVal) (e : Exn) :
  str_encode text encoding = Raise e -> ordinary e.
Proof.
  unfold str_encode. destruct encoding; try (intros [= <-]; exact I).
  destruct (codecs_lookup s); [eauto with ordinary | intros [= <-]; exact I].
Qed.

Lemma responses_ordinary (wt : Watcher) (stream : ustring) (self : Locals) (e : Exn) :
  (responses wt stream self).1 = Raise e -> ordinary e.
Proof.
  unfold responses.
  destruct (submit wt stream self) as [[g | e'] self1] eqn:E.
  - destruct (exhaust g self1). discriminate.
  - simpl. intros [= ->]. unfold submit in E.
    destruct wt as [| pattern response failure_sentinel]; [discriminate |].
    unfold FailingResponder_submit in E.
    destruct (pattern_matches stream failure_sentinel attr_failure_index self)
      as [failed self2].
    destruct (tried self2 && nonempty failed); [| discriminate].
    injection E as <- _. exact I.
Qed.

Lemma responses_in_ordinary (t : nat) (stream : ustring) (obj : WatcherObject)
    (e : Exn) :
  (responses_in t stream obj).1 = Raise e -> ordinary e.
Proof.
  unfold responses_in.
  destruct (responses (params obj) stream (locals_of obj t)) as [r l] eqn:E.
  simpl. intros ->. apply (responses_ordinary (params obj) stream (locals_of obj t)).
  by rewrite E.
Qed.

Lemma write_our_output_ordinary (stream : PyVal) (string : ustring) :
  raises_only ordinary (write_our_output stream string).
Proof.
  unfold write_our_output, stream_write. destruct stream;
    first [apply raises_only_modify | apply raises_only_raise; exact I].
Qed.

Lemma write_proc_stdin_ordinary (data : ustring) :
  raises_only ordinary (write_proc_stdin w data).
Proof.
  unfold write_proc_stdin, _write_proc_stdin. repeat raises_step;
    first [exact I | eapply str_encode_ordinary; eassumption].
Qed.

Lemma read_proc_stdout_ordinary (ev : ReadEvent) :
  raises_only ordinary (read_proc_stdout ev).
Proof. unfold read_proc_stdout. repeat raises_step; exact I. Qed.

Lemma read_proc_stderr_ordinary (ev : ReadEvent) :
  raises_only ordinary (read_proc_stderr ev).
Proof. unfold read_proc_stderr. repeat raises_step; exact I. Qed.

Lemma respond_ordinary (t : nat) (buffer_ : list ustring) :
  raises_only ordinary (respond w t buffer_).
Proof.
  unfold respond.
  apply raises_only_bind; [apply raises_only_get | intros ws].
  apply raises_only_bind;
    [apply raises_only_lift; eauto with ordinary | intros items].
  apply raises_only_for_each. intros watcher.
  destruct watcher; try (apply raises_only_raise; exact I).
  apply raises_only_bind; [apply raises_only_get | intros objects].
  destruct (objects !! addr) as [obj |]; [| apply raises_only_raise; exact I].
  destruct (responses_in t (concat buffer_) obj) as [r obj'] eqn:E.
  apply raises_only_bind; [apply raises_only_modify | intros _].
  apply raises_only_bind.
  - apply raises_only_lift. intros e He.
    apply (responses_in_ordinary t (concat buffer_) obj). by rewrite E.
  - intros rs. apply raises_only_for_each. intros response.
    apply write_proc_stdin_ordinary.
Qed.

Lemma _handle_output_ordinary
    (t : nat) (hide : bool) (output : PyVal)
    (reader : ReadEvent -> M (option bytes)) (reads : list ReadEvent) :
  (forall ev, raises_only ordinary (reader ev)) ->
  forall buffer_, raises_only ordinary
                    (_handle_output w t buffer_ hide output reader reads).
Proof.
  intros Hreader. induction reads as [| ev reads IH]; intros buffer_; simpl.
  - apply raises_only_mret.
  - apply raises_only_bind; [apply Hreader |].
    intros [[| byte data] |]; try apply raises_only_mret.
    apply raises_only_bind; [apply (decode_raises_ordinary registry_ok) |].
    intros text.
    apply raises_only_bind.
    { destruct hide; simpl;
        [apply raises_only_mret | apply write_our_output_ordinary]. }
    intros _.
    apply raises_only_bind; [apply respond_ordinary | intros _; apply IH].
Qed.

Lemma handle_stdout_ordinary (t : nat) (buffer_ : list ustring) (hide : bool)
    (output : PyVal) :
  raises_only ordinary (handle_stdout w t buffer_ hide output).
Proof.
  unfold handle_stdout. raises_step; [raises_step |].
  apply _handle_output_ordinary. apply read_proc_stdout_ordinary.
Qed.

Lemma handle_stderr_ordinary (t : nat) (buffer_ : list ustring) (hide : bool)
    (output : PyVal) :
  raises_only ordinary (handle_stderr w t buffer_ hide output).
Proof.
  unfold handle_stderr.
  apply _handle_output_ordinary. apply read_proc_stderr_ordinary.
Qed.
End WorkerRaises.

(** Bytes that decode under ['strict'] decode to the same text under
    ['replace']: the handler only matters at undecodable bytes. *)
Lemma decode_from_strict_replace (c : Codec) (data : bytes) (skip : nat)
    (text : ustring) :
  decode_from c strict skip data = Ok text ->
  decode_from c replace skip data = Ok text.
Proof.
  revert skip text. induction data as [| byte rest IH]; intros skip text; simpl.
  - auto.
  - destruct skip as [| k]; [| apply IH].
    destruct (decode_at c byte rest) as [cp more | more |];
      [| discriminate | discriminate].
    destruct (decode_from c strict more rest) as [text' |] eqn:E; [| discriminate].
    rewrite (IH _ _ E). auto.
Qed.

(** The three codecs of [example_lib] call the handler. *)
Lemma builtin_codecs_consult_handler : @registry_consults_handler example_lib.
Proof.
  intros name c. simpl. unfold builtin_codecs.
  repeat match goal with
         | |- context [if String.eqb ?a ?b then _ else _] =>
           destruct (String.eqb a b)
         end; intros [= <-] byte rest; simpl;
    unfold utf_8_decode_at;
    repeat match goal with
           | |- context [if ?c then _ else _] => destruct c
           | |- context [match ?l with [] => _ | _ :: _ => _ end] => destruct l
           end; discriminate.
Qed.




(** ** What the pieces leave alone *)

Section Preserves.
  Context {B : Type} (f : State -> B).

Lemma preserves_bind {A C} (m : M A) (k : A -> M C) :
  preserves f m -> (forall a, preserves f (k a)) -> preserves f (m ≫= k).
Proof.
  intros Hm Hk s o s'. unfold mbind, M_bind.
  destruct (m s) as [[a | e] s1] eqn:E.
  - intros Hka. rewrite (Hk a _ _ _ Hka). eapply Hm, E.
  - intros [= <- <-]. eapply Hm, E.
Qed.

Lemma preserves_mret {A} (a : A) : preserves f (mret a).
Proof. intros s o s' [= <- <-]. reflexivity. Qed.

Lemma preserves_get {A} (g : State -> A) : preserves f (get g).
Proof. intros s o s' [= <- <-]. reflexivity. Qed.

Lemma preserves_lift {A} (r : res A) : preserves f (lift r).
Proof. intros s o s' [= <- <-]. reflexivity. Qed.

Lemma preserves_raise {A} (e : Exn) : preserves f (raise (A := A) e).
Proof. intros s o s' [= <- <-]. reflexivity. Qed.

Lemma preserves_modify (g : State -> State) :
  (forall s, f (g s) = f s) -> preserves f (modify g).
Proof. intros Hg s o s' [= <- <-]. apply Hg. Qed.

Lemma preserves_catch {A} (m : M A) : preserves f m -> preserves f (catch m).
Proof.
  intros Hm s o s'. unfold catch. destruct (m s) as [r s1] eqn:E.
  intros [= <- <-]. eapply Hm, E.
Qed.

Lemma preserves_for_each {A} (l : list A) (body : A -> M unit) :
  (forall x, preserves f (body x)) -> preserves f (for_each l body).
Proof.
  intros Hbody. induction l as [| x l IH]; simpl.
  - apply preserves_mret.
  - apply preserves_bind; auto.
Qed.
End Preserves.

Ltac preserves_step :=
  first
    [ apply preserves_mret
    | apply preserves_get
    | apply preserves_lift
    | apply preserves_raise
    | apply preserves_modify; intros ?; reflexivity
    | apply preserves_catch
    | apply preserves_bind; [| intros ?]
    | apply preserves_for_each; intros ?
    | match goal with
      | |- preserves _ (if ?c then _ else _) => destruct c
      | |- preserves _ (match ?x with _ => _ end) => destruct x
      end ].

(** The attributes [using_pty] and [encoding] are of the kind the workers
    never assign: a part of the state that writing to a stream, to the child
    or to a watcher object leaves alone. *)
Section WorkerPreserves.
  Context `{PythonLib} (w : World) {B : Type} (f : State -> B).
  Hypothesis f_written : forall l s, f (set_written l s) = f s.
  Hypothesis f_proc_stdin : forall l s, f (set_proc_stdin l s) = f s.
  Hypothesis f_heap : forall h s, f (set_heap h s) = f s.

Lemma stream_write_preserves (stream : Stream) (string : ustring) :
  preserves f (stream_write stream string).
Proof. apply preserves_modify. intros s. apply f_written. Qed.

Lemma write_our_output_preserves (stream : PyVal) (string : ustring) :
  preserves f (write_our_output stream string).
Proof.
  destruct stream; simpl;
    first [apply stream_write_preserves | apply preserves_raise].
Qed.

Lemma write_proc_stdin_preserves (data : ustring) :
  preserves f (write_proc_stdin w data).
Proof.
  unfold write_proc_stdin, _write_proc_stdin.
  apply preserves_bind; [apply preserves_get | intros enc].
  apply preserves_bind; [apply preserves_lift | intros encoded].
  destruct (stdin_write_error w) as [msg |].
  - destruct (negb (contains "Broken pipe" msg));
      [apply preserves_raise | apply preserves_mret].
  - apply preserves_modify. intros s. apply f_proc_stdin.
Qed.

Lemma decode_preserves (data : bytes) : preserves f (decode data).
Proof. unfold decode. repeat preserves_step. Qed.

Lemma read_proc_stdout_preserves (ev : ReadEvent) :
  preserves f (read_proc_stdout ev).
Proof. unfold read_proc_stdout. repeat preserves_step. Qed.

Lemma read_proc_stderr_preserves (ev : ReadEvent) :
  preserves f (read_proc_stderr ev).
Proof. unfold read_proc_stderr. repeat preserves_step. Qed.

Lemma respond_preserves (t : nat) (buffer_ : list ustring) :
  preserves f (respond w t buffer_).
Proof.
  unfold respond.
  apply preserves_bind; [apply preserves_get | intros ws].
  apply preserves_bind; [apply preserves_lift | intros items].
  apply preserves_for_each. intros watcher.
  destruct watcher; try apply preserves_raise.
  apply preserves_bind; [apply preserves_get | intros objects].
  destruct (objects !! addr) as [obj |]; [| apply preserves_raise].
  destruct (responses_in t (concat buffer_) obj) as [r obj'].
  apply preserves_bind; [apply preserves_modify; intros s; apply f_heap | intros _].
  apply preserves_bind; [apply preserves_lift | intros rs].
  apply preserves_for_each. intros response. apply write_proc_stdin_preserves.
Qed.

Lemma _handle_output_preserves
    (t : nat) (hide : bool) (output : PyVal)
    (reader : ReadEvent -> M (option bytes)) (reads : list ReadEvent) :
  (forall ev, preserves f (reader ev)) ->
  forall buffer_, preserves f (_handle_output w t buffer_ hide output reader reads).
Proof.
  intros Hreader. induction reads as [| ev reads IH]; intros buffer_; simpl.
  - apply preserves_mret.
  - apply preserves_bind; [apply Hreader |].
    intros [[| byte data] |]; try apply preserves_mret.
    apply preserves_bind; [apply decode_preserves |]. intros text.
    apply preserves_bind.
    { destruct hide; simpl;
        [apply preserves_mret | apply write_our_output_preserves]. }
    intros _.
    apply preserves_bind; [apply respond_preserves | intros _; apply IH].
Qed.

Lemma handle_stdout_preserves (t : nat) (buffer_ : list ustring) (hide : bool)
    (output : PyVal) :
  preserves f (handle_stdout w t buffer_ hide output).
Proof.
  unfold handle_stdout. apply preserves_bind; [apply preserves_get | intros p].
  apply _handle_output_preserves. apply read_proc_stdout_preserves.
Qed.

Lemma handle_stderr_preserves (t : nat) (buffer_ : list ustring) (hide : bool)
    (output : PyVal) :
  preserves f (handle_stderr w t buffer_ hide output).
Proof.
  unfold handle_stderr.
  apply _handle_output_preserves. apply read_proc_stderr_preserves.
Qed.
End WorkerPreserves.

(** ** Runs that get as far as a Result *)

(** A step that raises only ordinary exceptions has returned, when the
    whole ends with a [Result]. *)
Lemma bind_result_inv {A B} (m : M A) (f : A -> M B) (s : State)
    (o : res B) (s' : State) :
  raises_only ordinary m ->
  (m ≫= f) s = (o, s') ->
  (forall e, o = Raise e -> ~ ordinary e) ->
  exists a s1, m s = (Ok a, s1) /\ f a s1 = (o, s').
Proof.
  intros Hm Hbind Ho. unfold mbind, M_bind in Hbind.
  destruct (m s) as [[a | e] s1] eqn:E; [eauto |].
  injection Hbind as <- <-. destruct (Ho e eq_refl). eapply Hm, E.
Qed.

Lemma result_of_not_ordinary (o : res Result) (r : Result) :
  result_of o = Some r -> forall e, o = Raise e -> ~ ordinary e.
Proof. intros Hr e ->. destruct e; simpl in *; try discriminate. auto. Qed.

Lemma should_use_pty_ordinary (w : World) (pty fallback : PyVal) :
  raises_only ordinary (should_use_pty w pty fallback).
Proof. intros s e s'. rewrite should_use_pty_step. discriminate. Qed.

Lemma _run_opts_ordinary (w : World) (kwargs : gmap string PyVal) :
  raises_only ordinary (_run_opts w kwargs).
Proof.
  unfold _run_opts.
  repeat first [ apply should_use_pty_ordinary | raises_step ];
    eauto with ordinary.
Qed.

Lemma start_ordinary (w : World) (command : string) (shell env : PyVal) :
  raises_only ordinary (start w command shell env).
Proof. unfold start. repeat raises_step; exact I. Qed.

Lemma fresh_thread_ordinary : raises_only ordinary fresh_thread.
Proof. intros s e s'. discriminate. Qed.

Lemma send_interrupt_ordinary : raises_only ordinary send_interrupt.
Proof. apply raises_only_modify. Qed.

(** Shows that a step of [_run_body] raises only ordinary exceptions. *)
Ltac ordinary_steps :=
  first [ apply _run_opts_ordinary
        | apply start_ordinary
        | apply fresh_thread_ordinary
        | solve [repeat first [apply fresh_thread_ordinary
                              | apply send_interrupt_ordinary
                              | raises_step];
                 eauto with ordinary; exact I] ].

(** Splits the first step off a computation known to end with a [Result]. *)
Ltac inv_result H Hres :=
  let a := fresh "a" in
  let s1 := fresh "s" in
  let E := fresh "E" in
  eapply bind_result_inv in H; [| ordinary_steps | exact Hres];
  destruct H as (a & s1 & E & H).

(** Reads off what the elementary steps returned and the state they left. *)
Ltac inv_steps :=
  repeat match goal with
  | H : lift _ _ = (_, _) |- _ => apply lift_inv in H; destruct H as [? ?]; subst
  | H : get _ _ = (_, _) |- _ => apply get_inv in H; destruct H as [? ?]; subst
  | H : modify _ _ = (_, _) |- _ => apply modify_inv in H; destruct H as [? ?]; subst
  | H : mret _ _ = (_, _) |- _ => apply mret_inv in H; destruct H as [? ?]; subst
  | H : Ok _ = Ok _ |- _ => injection H as H; subst
  end.

Section RunResult.
  Context `{PythonLib} (w : World).

Lemma start_preserves {B} (f : State -> B) (command : string) (shell env : PyVal) :
  preserves f (start w command shell env).
Proof. unfold start. repeat preserves_step. Qed.

Lemma fresh_thread_preserves {B} (f : State -> B) :
  (forall n s, f (set_next_thread n s) = f s) -> preserves f fresh_thread.
Proof. intros Hf s o s' [= <- <-]. apply Hf. Qed.

(** What the IO threads and the wait leave alone. *)
Lemma threads_preserve_using_pty (t : nat) (buffer_ : list ustring) (hide : bool)
    (output : PyVal) :
  preserves using_pty (handle_stdout w t buffer_ hide output) /\
  preserves using_pty (handle_stderr w t buffer_ hide output) /\
  preserves encoding (handle_stdout w t buffer_ hide output) /\
  preserves encoding (handle_stderr w t buffer_ hide output).
Proof.
  repeat split;
    first [apply handle_stdout_preserves | apply handle_stderr_preserves];
    reflexivity.
Qed.

(** A [_run_body] that ends with a [Result]: the options were resolved, the
    stdout thread ended without an exception, nothing later touched
    [using_pty] or [encoding], and the result is built from the two buffers
    and the exit code. *)
Lemma _run_body_result (command : string) (kwargs : gmap string PyVal)
    (s : State) (o : res Result) (s' : State) (r : Result) :
  _run_body w command kwargs s = (o, s') -> result_of o = Some r ->
  exists opts out_stream err_stream in_stream s0 shell env t hide_out st out sout err,
    _run_opts w kwargs s = (Ok (opts, out_stream, err_stream, in_stream), s0) /\
    handle_stdout w t [] hide_out out_stream st = (Ok out, sout) /\
    using_pty st = using_pty s' /\
    encoding st = encoding s' /\
    (using_pty s' = true -> err = []) /\
    r = Result__init__ command shell env (captured w (concat out))
          (captured w (concat err)) (exit_code w) (using_pty s') /\
    ((exit_code w = 0%Z /\ o = Ok r) \/
     (exit_code w <> 0%Z /\
      exists warn, opts !! "warn" = Some warn /\
                   o = if py_truthy warn then Ok r else Raise (Failure r))).
Proof.
  intros Hrun Hres. pose proof (result_of_not_ordinary o r Hres) as Hno.
  unfold _run_body in Hrun.
  inv_result Hrun Hno. destruct a as [[[opts out_stream] err_stream] in_stream].
  cbv beta iota in Hrun.
  do 18 inv_result Hrun Hno.
  inv_steps.
  (* nothing was raised while waiting *)
  destruct (wait_error w) as [we |] eqn:Hwait; simpl in Hrun, E17.
  { exfalso. injection Hrun as <- <-. apply (Hno _ eq_refl). destruct we; exact I. }
  inv_steps.
  (* and no thread raised *)
  destruct (nonempty _) eqn:Hex in Hrun.
  { exfalso. injection Hrun as <- <-. apply (Hno _ eq_refl). exact I. }
  apply nonempty_false in Hex.
  apply app_eq_nil in Hex as [Hout Hex]. apply app_eq_nil in Hex as [_ Herr].
  destruct a14 as [out | ?]; [| discriminate].
  destruct a15 as [err | ?]; [| discriminate].
  clear Hout Herr. simpl buffer_of in Hrun.
  (* the states *)
  assert (Hs6 : using_pty s6 = using_pty s0 /\ encoding s6 = encoding s0).
  { unfold stream_write in E5. destruct (py_truthy a3); inv_steps; auto. }
  assert (Hs7 : using_pty s7 = using_pty s6).
  { exact (start_preserves using_pty _ _ _ _ _ _ E6). }
  assert (Hs14 : using_pty s14 = using_pty s7 /\
                 encoding s14 = if py_truthy a6 then a6 else PyStr (preferred_encoding w)).
  { destruct (negb (using_pty s7)); inv_steps; auto. }
  assert (Hs15 : using_pty s15 = using_pty s14 /\ encoding s15 = encoding s14).
  { injection E14 as _ <-. auto. }
  unfold catch in E15.
  destruct (handle_stdout w a13 [] a9 out_stream s15) as [r_out s_out] eqn:Eout.
  injection E15 as -> ->.
  destruct (threads_preserve_using_pty a13 [] a9 out_stream) as (Pout & _ & Pout' & _).
  pose proof (Pout _ _ _ Eout) as Hs16. pose proof (Pout' _ _ _ Eout) as Hs16'.
  assert (Hs17 : using_pty s17 = using_pty s16 /\ encoding s17 = encoding s16 /\
                 (using_pty s7 = true -> err = [])).
  { destruct (using_pty s7); simpl in E16.
    - inv_steps. auto.
    - apply M_bind_Ok in E16 as (t' & st' & Et' & E16).
      injection Et' as <- <-. unfold catch in E16.
      destruct (handle_stderr w (next_thread s16) [] a12 err_stream _)
        as [r_err s_err] eqn:Eerr.
      injection E16 as -> ->.
      destruct (threads_preserve_using_pty (next_thread s16) [] a12 err_stream)
        as (_ & Perr & _ & Perr').
      rewrite (Perr _ _ _ Eerr), (Perr' _ _ _ Eerr). repeat split; discriminate. }
  destruct Hs6 as [Hs6 _], Hs14 as [Hs14 _], Hs15 as [Hs15 Hs15'].
  destruct Hs17 as (Hs17 & Hs17' & Herr).
  unfold returncode, mbind, M_bind, mret, M_ret, get, lift, raise,
    Result__bool__, Result__nonzero__, ok in Hrun.
  simpl in Hrun. fold (captured w (concat out)) in Hrun.
  fold (captured w (concat err)) in Hrun.
  set (R := Result__init__ command a a2 (captured w (concat out))
              (captured w (concat err)) (exit_code w) (using_pty s17)) in *.
  assert (Hfinal : s' = s17 /\
            ((exit_code w = 0%Z /\ o = Ok R) \/
             (exit_code w <> 0%Z /\
              exists warn, opts !! "warn" = Some warn /\
                           o = if py_truthy warn then Ok R else Raise (Failure R)))).
  { destruct (Z.eqb_spec (exit_code w) 0) as [Hz | Hnz].
    - injection Hrun as <- <-. auto.
    - unfold getitem in Hrun. destruct (opts !! "warn") as [warn |] eqn:Hwarn.
      + split; [destruct (py_truthy warn); congruence |].
        right. split; [exact Hnz |]. exists warn. split; [reflexivity |].
        destruct (py_truthy warn); congruence.
      + exfalso. injection Hrun as <- <-. apply (Hno _ eq_refl). exact I. }
  destruct Hfinal as [-> Hfinal].
  assert (Hr : r = R).
  { destruct Hfinal as [[_ ->] | (_ & warn & _ & ->)];
      [| destruct (py_truthy warn)]; simpl in Hres; congruence. }
  subst r.
  exists opts, out_stream, err_stream, in_stream, s0, a, a2, a13, a9, s15, out, s16, err.
  split; [exact E |]. split; [exact Eout |].
  split; [congruence |]. split; [congruence |].
  split; [intros Hpty; apply Herr; congruence |].
  split; [reflexivity | exact Hfinal].
Qed.
End RunResult.

Section RunSteps.
  Context `{PythonLib} (w : World).

Lemma run_eq (command : string) (kwargs : gmap string PyVal) (s : State) :
  run w command kwargs s = _run_body w command kwargs s.
Proof.
  unfold run, catch, stop, mbind, M_bind, mret, M_ret, lift.
  destruct (_run_body w command kwargs s) as [[r | e] s1]; reflexivity.
Qed.

(** Apart from [echo] and [hide], the options [_run_opts] returns are the
    resolved ones. *)
Lemma _run_opts_Ok_lookup (kwargs : gmap string PyVal) (s s0 : State)
    (opts : gmap string PyVal) (out_stream err_stream in_stream : PyVal)
    (key : string) :
  _run_opts w kwargs s = (Ok (opts, out_stream, err_stream, in_stream), s0) ->
  key <> "echo" -> key <> "hide" ->
  opts !! key = (_run_opts_loop (context_config_run s) kwargs).1 !! key.
Proof.
  intros Hrun Hecho Hhide. unfold _run_opts in Hrun. inv_Ok.
  rewrite lookup_insert_ne by done.
  match goal with
  | |- (if ?c then _ else _) !! _ = _ => destruct c
  end; [rewrite lookup_insert_ne by done |]; reflexivity.
Qed.

Lemma read_proc_stdout_Ok (ev : ReadEvent) (s : State) (data : option bytes)
    (s' : State) :
  read_proc_stdout ev s = (Ok data, s') ->
  s' = s /\
  match ev with
  | read_data d => data = Some d
  | read_error _ => data = None
  end.
Proof.
  unfold read_proc_stdout, mbind, M_bind, get, mret, M_ret, raise.
  destruct (using_pty s), ev as [d | msg];
    try destruct (negb (contains "Input/output error" msg));
    intros [= <- <-]; auto.
Qed.

Lemma decode_Ok (data : bytes) (s : State) (text : ustring) (s' : State) :
  decode data s = (Ok text, s') ->
  s' = s /\ bytes_decode data (encoding s) replace = Ok text.
Proof.
  unfold decode, mbind, M_bind, get, lift. intros [= -> <-]. auto.
Qed.

(** A stdout worker that ends without an exception has put in the buffer,
    in order, the decoded text of every chunk read before the end of the
    stream. *)
Lemma _handle_output_stdout_Ok
    (t : nat) (hide : bool) (output : PyVal) (reads : list ReadEvent) :
  forall (buffer_ : list ustring) (s : State) (out : list ustring) (s' : State),
    _handle_output w t buffer_ hide output read_proc_stdout reads s = (Ok out, s') ->
    exists texts,
      Forall2 (fun chunk text => bytes_decode chunk (encoding s) replace = Ok text)
              (chunks_read reads) texts /\
      out = buffer_ ++ texts.
Proof.
  induction reads as [| ev reads IH]; intros buffer_ s out s' Hrun; simpl in Hrun.
  - apply mret_inv in Hrun as [[= <-] _]. exists []. rewrite app_nil_r.
    split; [constructor | reflexivity].
  - apply M_bind_Ok in Hrun as (data & s1 & Hread & Hrun).
    apply read_proc_stdout_Ok in Hread as [-> Hev].
    destruct ev as [d | msg]; subst data.
    + destruct d as [| byte d].
      * apply mret_inv in Hrun as [[= <-] _]. exists []. rewrite app_nil_r.
        split; [constructor | reflexivity].
      * apply M_bind_Ok in Hrun as (text & s2 & Hdec & Hrun).
        apply decode_Ok in Hdec as [-> Hdec].
        apply M_bind_Ok in Hrun as ([] & s3 & Hwrite & Hrun).
        apply M_bind_Ok in Hrun as ([] & s4 & Hresp & Hrun).
        assert (Henc : encoding s4 = encoding s).
        { rewrite (respond_preserves w encoding (fun _ _ => eq_refl)
                     (fun _ _ => eq_refl) t _ _ _ _ Hresp).
          destruct hide; simpl in Hwrite.
          - apply mret_inv in Hwrite as [_ ->]. reflexivity.
          - exact (write_our_output_preserves encoding (fun _ _ => eq_refl)
                     _ _ _ _ _ Hwrite). }
        destruct (IH _ _ _ _ Hrun) as (texts & Hall & ->).
        exists (text :: texts). rewrite Henc in Hall. simpl.
        split; [constructor; assumption | by rewrite <- app_assoc].
    + apply mret_inv in Hrun as [[= <-] _]. exists []. rewrite app_nil_r.
      split; [constructor | reflexivity].
Qed.
End RunSteps.

(** ** run *)

(** C1.  For every [run] that gets as far as a [Result] (returned, or
    wrapped in the [Failure] raised): its [exited] is the child's exit code;
    [run] raises the [Failure] when the exit code is not 0 and the resolved
    [warn] option is false, and returns the [Result] in every other case. *)
Theorem run_raises_Failure_iff `{PythonLib}
    (w : World) (command : string) (kwargs : gmap string PyVal)
    (s : State) (outcome : res Result) (s' : State) (r : Result) (warn : PyVal) :
  run w command kwargs s = (outcome, s') ->
  result_of outcome = Some r ->
  (_run_opts_loop (context_config_run s) kwargs).1 !! "warn" = Some warn ->
  exited r = exit_code w /\
  outcome =
    if negb (exit_code w =? 0)%Z && negb (py_truthy warn)
    then Raise (Failure r)
    else Ok r.
Proof.
  intros Hrun Hres Hwarn. rewrite run_eq in Hrun.
  destruct (_run_body_result w command kwargs s outcome s' r Hrun Hres)
    as (opts & out_stream & err_stream & in_stream & s0 & shell_ & env_ & t
        & hide_out & st & out & sout & err & Hopts & _ & _ & _ & _ & -> & Hfinal).
  split; [reflexivity |].
  destruct Hfinal as [[Hz ->] | (Hnz & warn' & Hwarn' & ->)].
  - rewrite Hz. reflexivity.
  - rewrite (_run_opts_Ok_lookup w kwargs s s0 opts _ _ _ "warn" Hopts) in Hwarn'
      by done.
    rewrite Hwarn in Hwarn'. injection Hwarn' as <-.
    destruct (Z.eqb_spec (exit_code w) 0) as [? | _]; [contradiction |].
    destruct (py_truthy warn); reflexivity.
Qed.

Lemma run_raises_Failure_iff_witness :
  let w := quiet_world [b "hi"] [b "oops"] 3 in
  let s := Local__init__ default_config_run ∅ in
  exists r, (@run example_lib w "exit 3" ∅ s).1 = Raise (Failure r) /\
            exited r = 3%Z.
Proof.
  intros w s.
  destruct (@run example_lib w "exit 3" ∅ s) as [o s'] eqn:Hrun.
  assert (Ho : o = (@run example_lib w "exit 3" ∅ s).1) by (rewrite Hrun; reflexivity).
  vm_compute in Ho.
  match type of Ho with
  | _ = Raise (Failure ?R) =>
    exists R;
    destruct (@run_raises_Failure_iff example_lib w "exit 3" ∅ s o s' R
                (PyBool false) Hrun) as [Hexited Houtcome];
    [rewrite Ho; reflexivity | reflexivity |]
  end.
  split; [exact Houtcome | reflexivity].
Defined.

(** C3.  For every [run] that gets as far as a [Result] with pty use
    resolved to true: the result says so, its [stderr] is the empty string,
    and its [stdout] is, in order, the decoded text of every chunk read from
    the pty before the end of the stream (line ends normalized on Windows). *)
Theorem pty_run_stderr_empty `{PythonLib}
    (w : World) (command : string) (kwargs : gmap string PyVal)
    (s : State) (outcome : res Result) (s' : State) (r : Result) :
  run w command kwargs s = (outcome, s') ->
  result_of outcome = Some r ->
  using_pty s' = true ->
  pty r = true /\
  stderr r = [] /\
  exists texts,
    Forall2 (fun chunk text => bytes_decode chunk (encoding s') replace = Ok text)
            (chunks_read (pty_reads w)) texts /\
    stdout r = captured w (concat texts).
Proof.
  intros Hrun Hres Hpty. rewrite run_eq in Hrun.
  destruct (_run_body_result w command kwargs s outcome s' r Hrun Hres)
    as (opts & out_stream & err_stream & in_stream & s0 & shell_ & env_ & t
        & hide_out & st & out & sout & err & _ & Hout & Hst & Henc & Herr & -> & _).
  simpl. split; [exact Hpty |]. rewrite (Herr Hpty). split.
  { unfold captured. destruct (WINDOWS w); reflexivity. }
  unfold handle_stdout in Hout.
  apply M_bind_Ok in Hout as (p & s1 & Hget & Hout).
  apply get_inv in Hget as [[= ->] ->]. rewrite Hst, Hpty in Hout.
  destruct (_handle_output_stdout_Ok w t hide_out out_stream _ _ _ _ _ Hout)
    as (texts & Hall & ->).
  exists texts. rewrite <- Henc. split; [exact Hall | reflexivity].
Qed.

Lemma pty_run_stderr_empty_witness :
  let w := quiet_world [b "hi"] [b "oops"] 0 in
  let s := Local__init__ default_config_run ∅ in
  let run_ := @run example_lib w "make" {["pty" := PyBool true]} s in
  exists r, run_.1 = Ok r /\ stderr r = [] /\ stdout r = u "hioops".
Proof.
  intros w s run_. subst run_.
  destruct (@run example_lib w "make" {["pty" := PyBool true]} s) as [o s'] eqn:Hrun.
  assert (Ho : o = (@run example_lib w "make" {["pty" := PyBool true]} s).1)
    by (rewrite Hrun; reflexivity).
  assert (Hs : using_pty s' = using_pty (@run example_lib w "make" {["pty" := PyBool true]} s).2)
    by (rewrite Hrun; reflexivity).
  vm_compute in Ho. vm_compute in Hs.
  match type of Ho with
  | _ = Ok ?R =>
    exists R;
    destruct (@pty_run_stderr_empty example_lib w "make" {["pty" := PyBool true]}
                s o s' R Hrun) as (_ & Hstderr & _);
    [rewrite Ho; reflexivity | exact Hs |]
  end.
  split; [exact Ho | split; [exact Hstderr | reflexivity]].
Defined.


(** * More properties of the module *)

(** ** pattern_matches and FailingResponder.submit *)

Section WatcherCursors.
Context `{PythonLib}.

(** X1.  [pattern_matches] never moves the cursor it is given backwards, and
    never beyond the longer of the old cursor and the stream; after a match
    the cursor is at or past the end of the stream; the other cursor and
    [tried] are not touched. *)
Theorem pattern_matches_cursor
    (stream pattern : ustring) (index_attr : IndexAttr) (self : Locals) :
  let matches := (pattern_matches stream pattern index_attr self).1 in
  let self' := (pattern_matches stream pattern index_attr self).2 in
  getattr self index_attr <= getattr self' index_attr /\
  getattr self' index_attr <= Nat.max (getattr self index_attr) (length stream) /\
  (matches <> [] -> length stream <= getattr self' index_attr) /\
  (matches = [] -> self' = self) /\
  (forall other, other <> index_attr -> getattr self' other = getattr self other) /\
  tried self' = tried self.
Proof.
  unfold pattern_matches. simpl.
  destruct (findall pattern (drop (getattr self index_attr) stream)) as [| m ms];
    simpl.
  - repeat split; try lia; try congruence.
  - rewrite length_drop.
    split; [destruct index_attr; simpl; lia |].
    split; [destruct index_attr; simpl; lia |].
    split; [intros _; destruct index_attr; simpl; lia |].
    split; [congruence |].
    split; [| destruct index_attr; reflexivity].
    intros other Hne. destruct index_attr, other; simpl; congruence.
Qed.

(** X2.  [list(FailingResponder.submit(stream))] in closed form: it raises
    [ResponseFailure] exactly when [tried] is set and the sentinel is found
    beyond the failure cursor, and then the response cursor stays where it
    was; otherwise it yields what a [Responder] with the same pattern yields
    from the same cursor, and leaves [tried] set. *)
Theorem FailingResponder_responses
    (pattern response failure_sentinel stream : ustring) (self : Locals) :
  let failed := findall failure_sentinel (drop (failure_index self) stream) in
  let r := responses (FailingResponder pattern response failure_sentinel) stream self in
  if tried self && nonempty failed
  then r.1 = Raise (ResponseFailure pattern failure_sentinel) /\
       index r.2 = index self /\
       failure_index r.2 = failure_index self + length (drop (failure_index self) stream) /\
       tried r.2 = true
  else r.1 = (responses (Responder pattern response) stream self).1 /\
       index r.2 = index (responses (Responder pattern response) stream self).2 /\
       tried r.2 = true.
Proof.
  unfold responses, submit, FailingResponder_submit, Responder_submit, exhaust,
    pattern_matches. simpl.
  destruct (findall failure_sentinel (drop (failure_index self) stream)) as [| m ms];
    simpl.
  - rewrite andb_false_r. simpl.
    destruct (findall pattern (drop (index self) stream)); simpl; auto.
  - destruct (tried self) eqn:Htried; simpl.
    + auto.
    + destruct (findall pattern (drop (index self) stream)); simpl; auto.
Qed.
End WatcherCursors.


(** ** generate_env, normalize_hide, _run_opts *)

(** X3.  [generate_env]: with [replace_env] true the given [env] is the
    child's environment as it is; otherwise the child gets [os.environ] with
    the entries of [env] added or put in place of its own, and an [env] that
    is not a dict is a [TypeError]. *)
Theorem generate_env_merges
    (w : World) (env replace_env : PyVal) :
  if py_truthy replace_env then generate_env w env replace_env = Ok env
  else match env with
       | PyDict overlay =>
         exists child,
           generate_env w env replace_env = Ok (PyDict child) /\
           forall key,
             child !! key =
               match overlay !! key with
               | Some value => Some value
               | None => os_environ w !! key
               end
       | _ => generate_env w env replace_env = Raise TypeError
       end.
Proof.
  unfold generate_env. destruct (py_truthy replace_env); [reflexivity |].
  destruct env; try reflexivity.
  eexists. split; [reflexivity |]. intros key.
  rewrite lookup_union. destruct (d !! key), (os_environ w !! key); reflexivity.
Qed.

(** X4.  What [normalize_hide] returns names streams only: it is one of
    [()], [('out',)], [('err',)] and [('out', 'err')]. *)
Theorem normalize_hide_names_streams (val : PyVal) (hide : list PyVal) :
  normalize_hide val = Ok hide ->
  hide = [] \/ hide = [PyStr "out"] \/ hide = [PyStr "err"] \/
  hide = [PyStr "out"; PyStr "err"].
Proof.
  intros Hok.
  assert (Hin : py_in val hide_vals = true).
  { unfold normalize_hide in Hok. destruct (py_in val hide_vals); [reflexivity |].
    discriminate. }
  apply py_in_hide_vals in Hin. simpl in Hin.
  destruct Hin as [Hin | [-> | ->]].
  - repeat (destruct Hin as [<- | Hin];
            [vm_compute in Hok; injection Hok as <-; auto |]).
    destruct Hin.
  - vm_compute in Hok. injection Hok as <-. auto.
  - vm_compute in Hok. injection Hok as <-. auto.
Qed.

Lemma normalize_hide_names_streams_witness :
  [PyStr "err"] = [] \/ [PyStr "err"] = [PyStr "out"] \/
  [PyStr "err"] = [PyStr "err"] \/ [PyStr "err"] = [PyStr "out"; PyStr "err"].
Proof.
  exact (normalize_hide_names_streams (PyStr "stderr") [PyStr "err"] eq_refl).
Defined.

(** X5.  The options [_run_opts] works with have exactly the keys of the
    configuration, and giving an option as [None] is the same as leaving it
    out: the configured value stands. *)
Theorem _run_opts_loop_None_is_omitted
    (config kwargs : gmap string PyVal) (key : string) :
  dom (_run_opts_loop config kwargs).1 = dom config /\
  (_run_opts_loop config (<[key := PyNone]> kwargs)).1
    = (_run_opts_loop config (delete key kwargs)).1.
Proof.
  split.
  - apply set_eq. intros k. rewrite !elem_of_dom.
    rewrite (proj1 (_run_opts_loop_lookup config kwargs k)).
    destruct (config !! k); simpl; split; intros [? ?]; eauto; discriminate.
  - apply map_eq. intros k.
    rewrite !(proj1 (_run_opts_loop_lookup _ _ _)).
    destruct (decide (key = k)) as [<- | Hne].
    + rewrite lookup_insert_eq, lookup_delete_eq. reflexivity.
    + rewrite lookup_insert_ne, lookup_delete_ne by done. reflexivity.
Qed.


(** X6.  A [hide] value that is not accepted stops [_run_opts] with the
    [ValueError] before anything is decided or written: the runner is left as
    it was.  A configuration without a [hide] entry stops it with a
    [KeyError] in the same way. *)
Theorem _run_opts_rejects_hide
    (w : World) (kwargs : gmap string PyVal) (s : State) (resolved : option PyVal) :
  (_run_opts_loop (context_config_run s) kwargs).1 !! "hide" = resolved ->
  match resolved with
  | Some hide =>
    py_in hide hide_vals = false ->
    _run_opts w kwargs s = (Raise (ValueError hide hide_vals), s)
  | None => _run_opts w kwargs s = (Raise (KeyError "hide"), s)
  end.
Proof.
  intros Hhide. unfold _run_opts, mbind, M_bind, get, lift, getitem.
  rewrite Hhide. destruct resolved as [hide |]; [| reflexivity].
  intros Hin.
  assert (Hnot : py_is_True hide = false).
  { destruct hide as [| [] | | | | | | |]; try reflexivity. discriminate. }
  rewrite Hnot, Hhide. unfold normalize_hide. rewrite Hin. reflexivity.
Qed.

Lemma _run_opts_rejects_hide_witness :
  _run_opts (quiet_world [] [] 0) {["hide" := PyStr "stdin"]}
    (Local__init__ default_config_run ∅)
  = (Raise (ValueError (PyStr "stdin") hide_vals),
     Local__init__ default_config_run ∅).
Proof.
  apply (_run_opts_rejects_hide (quiet_world [] [] 0) {["hide" := PyStr "stdin"]}
           (Local__init__ default_config_run ∅) (Some (PyStr "stdin"))).
  - vm_compute. reflexivity.
  - reflexivity.
Defined.

(** X7.  When [_run_opts] returns: a stream option left at [None] has become
    the stream of [sys], any other is returned as given; [using_pty] is what
    [should_use_pty] answers for the resolved [pty] and [fallback];
    [self.watchers] is replaced by a non-empty list of watchers and kept as it
    was for an empty one; and the only thing written is the fallback warning,
    if it was due. *)
Theorem _run_opts_resolves
    (w : World) (kwargs : gmap string PyVal) (s s' : State)
    (opts : gmap string PyVal) (out_stream err_stream in_stream : PyVal) :
  _run_opts w kwargs s = (Ok (opts, out_stream, err_stream, in_stream), s') ->
  exists out_ err_ in_ pty_ fallback_ watchers_,
    opts !! "out_stream" = Some out_ /\
    opts !! "err_stream" = Some err_ /\
    opts !! "in_stream" = Some in_ /\
    opts !! "pty" = Some pty_ /\
    opts !! "fallback" = Some fallback_ /\
    opts !! "watchers" = Some watchers_ /\
    out_stream = (if py_is_None out_ then PyFile sys_stdout else out_) /\
    err_stream = (if py_is_None err_ then PyFile sys_stderr else err_) /\
    in_stream = (if py_is_None in_ then PyFile sys_stdin else in_) /\
    using_pty s' = py_truthy pty_ && negb (falls_back (w, pty_, fallback_)) /\
    watchers s' = (if py_truthy watchers_ then watchers_ else watchers s) /\
    written s' =
      written s ++
      (if falls_back (w, pty_, fallback_) && negb (warned_about_pty_fallback s)
       then [(sys_stderr, pty_fallback_warning)] else []) /\
    heap s' = heap s /\ encoding s' = encoding s.
Proof.
  intros Hrun. unfold _run_opts in Hrun. inv_Ok.
  match goal with
  | Hpty : should_use_pty _ _ _ _ = _ |- _ =>
    rewrite should_use_pty_step in Hpty; injection Hpty as <- <-
  end.
  match goal with
  | Hw : (if py_truthy ?ws then _ else _) _ = _ |- _ =>
    destruct (py_truthy ws) eqn:Hws; inv_Ok
  end;
  repeat match goal with
         | |- exists _, _ => eexists
         end;
  repeat match goal with
         | |- _ /\ _ => split
         end;
  first
    [ eassumption
    | reflexivity
    | unfold falls_back; rewrite ?Hws; simpl;
      repeat match goal with
             | |- context [if ?c then _ else _] => destruct c
             end;
      simpl; rewrite ?app_nil_r; reflexivity ].
Qed.

Lemma _run_opts_resolves_witness :
  let kwargs : gmap string PyVal := {["pty" := PyBool true]} in
  let s := Local__init__ default_config_run ∅ in
  exists opts out_stream err_stream in_stream s',
    _run_opts (quiet_world [] [] 0) kwargs s
      = (Ok (opts, out_stream, err_stream, in_stream), s') /\
    heap s' = heap s /\ encoding s' = encoding s.
Proof.
  intros kwargs s.
  assert (Hok : raised (_run_opts (quiet_world [] [] 0) kwargs s).1 = None)
    by (vm_compute; reflexivity).
  destruct (_run_opts (quiet_world [] [] 0) kwargs s)
    as [[[[[opts o] e] i] | ex] s'] eqn:Hrun; [| discriminate Hok].
  exists opts, o, e, i, s'. split; [reflexivity |].
  destruct (_run_opts_resolves (quiet_world [] [] 0) kwargs s s' opts o e i Hrun)
    as (out_ & err_ & in_ & pty_ & fallback_ & watchers_ &
        _ & _ & _ & _ & _ & _ & _ & _ & _ & _ & _ & _ & Hheap & Henc).
  split; [exact Hheap | exact Henc].
Defined.


(** ** Line ends of the captured text *)

Lemma startswith_nil (s : ustring) : startswith s [] = true.
Proof. destruct s; reflexivity. Qed.

Lemma replace_one_map (a b : N) (text : ustring) :
  str_replace text [a] [b] = map (fun c => if N.eqb c a then b else c) text.
Proof.
  unfold str_replace. induction text as [| c rest IH]; simpl; [reflexivity |].
  rewrite (N.eqb_sym a c), startswith_nil, andb_true_r.
  destruct (N.eqb c a); simpl; rewrite IH; reflexivity.
Qed.

Lemma replace_CR_map (text : ustring) :
  str_replace text [CR] [LF] = map (fun c => if N.eqb c CR then LF else c) text.
Proof. apply replace_one_map. Qed.

Lemma replace_two_step (a b n c : N) (rest : ustring) :
  str_replace (c :: rest) [a; b] [n] =
    if N.eqb c a then
      match rest with
      | c' :: rest' =>
        if N.eqb c' b then n :: str_replace rest' [a; b] [n]
        else c :: str_replace rest [a; b] [n]
      | [] => [c]
      end
    else c :: str_replace rest [a; b] [n].
Proof.
  unfold str_replace. simpl. rewrite (N.eqb_sym a c).
  destruct (N.eqb c a); simpl; [| reflexivity].
  destruct rest as [| c' rest']; simpl; [reflexivity |].
  rewrite (N.eqb_sym b c'), startswith_nil, andb_true_r.
  destruct (N.eqb c' b); reflexivity.
Qed.

Lemma replace_CRLF_step (c : N) (rest : ustring) :
  str_replace (c :: rest) [CR; LF] [LF] =
    if N.eqb c CR then
      match rest with
      | c' :: rest' =>
        if N.eqb c' LF then LF :: str_replace rest' [CR; LF] [LF]
        else c :: str_replace rest [CR; LF] [LF]
      | [] => [c]
      end
    else c :: str_replace rest [CR; LF] [LF].
Proof. apply replace_two_step. Qed.

Lemma two_replaces_universal (n : nat) (text : ustring) :
  length text <= n ->
  str_replace (str_replace text [CR; LF] [LF]) [CR] [LF] = universal_newlines text.
Proof.
  revert text. induction n as [| n IH]; intros text Hlen.
  - destruct text; [reflexivity | simpl in Hlen; lia].
  - destruct text as [| c rest]; [reflexivity |].
    rewrite replace_CRLF_step. simpl in Hlen. cbn [universal_newlines].
    destruct (N.eqb c CR) eqn:Hc.
    + destruct rest as [| c' rest'].
      * rewrite replace_CR_map. simpl. rewrite Hc. reflexivity.
      * destruct (N.eqb c' LF) eqn:Hc'.
        -- rewrite replace_CR_map. cbn [map].
           change (N.eqb LF CR) with false. cbv iota.
           rewrite <- replace_CR_map. rewrite IH by (simpl in Hlen; lia).
           reflexivity.
        -- rewrite replace_CR_map. cbn [map]. rewrite Hc.
           rewrite <- replace_CR_map. rewrite IH by lia. reflexivity.
    + rewrite replace_CR_map. cbn [map]. rewrite Hc.
      rewrite <- replace_CR_map. rewrite IH by lia. reflexivity.
Qed.

Lemma universal_newlines_no_CR (n : nat) (text : ustring) :
  length text <= n -> CR ∉ universal_newlines text.
Proof.
  revert text. induction n as [| n IH]; intros text Hlen.
  - destruct text; [apply not_elem_of_nil | simpl in Hlen; lia].
  - destruct text as [| c rest]; [apply not_elem_of_nil |].
    simpl in Hlen. cbn [universal_newlines].
    destruct (N.eqb c CR) eqn:Hc.
    + destruct rest as [| c' rest'].
      * intros Hin. apply list_elem_of_singleton in Hin. discriminate.
      * destruct (N.eqb c' LF);
          (intros Hin; apply elem_of_cons in Hin as [Hin | Hin];
           [discriminate | revert Hin; apply IH; simpl in Hlen; simpl; lia]).
    + intros Hin. apply elem_of_cons in Hin as [Hin | Hin].
      * subst c. rewrite N.eqb_refl in Hc. discriminate.
      * revert Hin. apply IH. lia.
Qed.

Lemma universal_newlines_id (text : ustring) :
  CR ∉ text -> universal_newlines text = text.
Proof.
  induction text as [| c rest IH]; intros Hno; [reflexivity |].
  apply not_elem_of_cons in Hno as [Hc Hrest]. simpl.
  destruct (N.eqb_spec c CR) as [-> | _]; [congruence |].
  rewrite IH by assumption. reflexivity.
Qed.

(** X8.  The two replacements done on Windows amount to reading the text
    with universal newlines: every ["\r\n"] and every other ["\r"] becomes
    ["\n"], so that no ["\r"] is left, and a text without ["\r"] is kept as
    it is.  On other platforms the text is kept as read. *)
Theorem captured_universal_newlines (w : World) (text : ustring) :
  captured w text = (if WINDOWS w then universal_newlines text else text) /\
  (WINDOWS w = true -> CR ∉ captured w text) /\
  (CR ∉ text -> captured w text = text).
Proof.
  unfold captured. destruct (WINDOWS w).
  - rewrite (two_replaces_universal (length text) text) by lia.
    split; [reflexivity |]. split.
    + intros _. apply (universal_newlines_no_CR (length text)). lia.
    + apply universal_newlines_id.
  - split; [reflexivity |]. split; [discriminate | reflexivity].
Qed.

(** ** What the workers write *)

Lemma M_bind_inv {A B} (m : M A) (f : A -> M B) (s : State)
    (o : res B) (s' : State) :
  (m ≫= f) s = (o, s') ->
  (exists a s1, m s = (Ok a, s1) /\ f a s1 = (o, s')) \/
  (exists e, m s = (Raise e, s') /\ o = Raise e).
Proof.
  unfold mbind, M_bind. destruct (m s) as [[a | e] s1]; [eauto |].
  intros [= <- <-]. eauto.
Qed.

Section WorkerWrites.
Context `{PythonLib} (w : World).

Lemma read_proc_stderr_Ok (ev : ReadEvent) (s : State) (data : option bytes)
    (s' : State) :
  read_proc_stderr ev s = (Ok data, s') ->
  s' = s /\
  match ev with
  | read_data d => data = Some d
  | read_error _ => data = None
  end.
Proof.
  unfold read_proc_stderr, mret, M_ret, raise.
  destruct ev as [d | msg]; intros [= <- <-]; auto.
Qed.

(** The reader loop, whatever way it ends: the texts it wrote are the
    decodings of the first chunks of the stream, one for one. *)
Lemma _handle_output_mirror
    (t : nat) (hide : bool) (f : Stream)
    (reader : ReadEvent -> M (option bytes)) (reads : list ReadEvent) :
  (forall ev s data s',
      reader ev s = (Ok data, s') ->
      match ev with
      | read_data d => data = Some d
      | read_error _ => data = None
      end) ->
  (forall ev, preserves written (reader ev)) ->
  (forall ev, preserves encoding (reader ev)) ->
  forall (buffer_ : list ustring) (s : State) (o : res (list ustring)) (s' : State),
    _handle_output w t buffer_ hide (PyFile f) reader reads s = (o, s') ->
    exists texts,
      Forall2 (fun chunk text => bytes_decode chunk (encoding s) replace = Ok text)
              (take (length texts) (chunks_read reads)) texts /\
      written s' = written s ++ (if hide then [] else map (pair f) texts) /\
      (forall out,
          o = Ok out ->
          out = buffer_ ++ texts /\ length texts = length (chunks_read reads)).
Proof.
  intros Hread Hwritten Hencoding.
  assert (Hnil : forall (buffer_ : list ustring) (s : State) (o : res (list ustring))
                        (chunks : list bytes),
             (forall out, o = Ok out -> out = buffer_ /\ chunks = []) ->
             exists texts : list ustring,
               Forall2 (fun chunk text =>
                          bytes_decode chunk (encoding s) replace = Ok text)
                       (take (length texts) chunks) texts /\
               written s = written s ++ (if hide then [] else map (pair f) texts) /\
               (forall out,
                   o = Ok out ->
                   out = buffer_ ++ texts /\ length texts = length chunks)).
  { intros buffer_ s o chunks Ho. exists []. rewrite app_nil_r.
    split; [constructor |].
    split; [destruct hide; simpl; rewrite app_nil_r; reflexivity |].
    intros out Hout. destruct (Ho out Hout) as [-> ->]. auto. }
  induction reads as [| ev reads IH]; intros buffer_ s o s' Hrun; simpl in Hrun.
  - apply mret_inv in Hrun as [-> ->]. apply Hnil. intros out [= <-]. auto.
  - apply M_bind_inv in Hrun as [(data & s1 & Hev & Hrun) | (e & Hev & ->)].
    2: { rewrite (Hwritten _ _ _ _ Hev). apply Hnil. discriminate. }
    rewrite <- (Hwritten _ _ _ _ Hev), <- (Hencoding _ _ _ _ Hev).
    apply Hread in Hev.
    destruct ev as [[| byte chunk] | msg]; subst data;
      try (apply mret_inv in Hrun as [-> ->]; apply Hnil;
           intros out [= <-]; auto).
    cbn [chunks_read].
    apply M_bind_inv in Hrun as [(text & s2 & Hdec & Hrun) | (e & Hdec & ->)].
    2: { rewrite (decode_preserves written _ _ _ _ Hdec). apply Hnil. discriminate. }
    apply decode_Ok in Hdec as [-> Hdec].
    apply M_bind_inv in Hrun as [([] & s3 & Hwrite & Hrun) | (e & Hwrite & ->)].
    2: { destruct hide; simpl in Hwrite; discriminate. }
    assert (Hs3 : written s3 = written s1 ++ (if hide then [] else [(f, text)]) /\
                  encoding s3 = encoding s1).
    { destruct hide; simpl in Hwrite.
      - apply mret_inv in Hwrite as [_ ->]. rewrite app_nil_r. auto.
      - unfold stream_write in Hwrite. apply modify_inv in Hwrite as [_ ->]. auto. }
    destruct Hs3 as [Hs3 Henc3].
    apply M_bind_inv in Hrun as [([] & s4 & Hresp & Hrun) | (e & Hresp & ->)].
    + pose proof (respond_preserves w written (fun _ _ => eq_refl)
                    (fun _ _ => eq_refl) t _ _ _ _ Hresp) as Hs4.
      pose proof (respond_preserves w encoding (fun _ _ => eq_refl)
                    (fun _ _ => eq_refl) t _ _ _ _ Hresp) as Henc4.
      destruct (IH _ _ _ _ Hrun) as (texts & Hall & Hw & Hout).
      exists (text :: texts). split; [| split].
      * simpl. constructor; [exact Hdec |].
        rewrite Henc4, Henc3 in Hall. exact Hall.
      * rewrite Hw, Hs4, Hs3. rewrite <- app_assoc. destruct hide; reflexivity.
      * intros out Ho. destruct (Hout out Ho) as [-> Hlen].
        rewrite <- app_assoc. simpl. auto.
    + pose proof (respond_preserves w written (fun _ _ => eq_refl)
                    (fun _ _ => eq_refl) t _ _ _ _ Hresp) as Hs4.
      exists [text]. split; [| split; [| discriminate]].
      * simpl. rewrite take_0. constructor; [exact Hdec | constructor].
      * rewrite Hs4, Hs3. destruct hide; reflexivity.
Qed.

(** X9.  What a worker writes to its output stream is, in order and one for
    one, the decoded text of the first chunks of the stream it reads, and
    nothing when the stream is hidden.  A worker that returns has got to the
    end of the stream and has the same texts in its buffer; a worker that
    ends with an exception has written the chunks decoded up to then. *)
Theorem handle_output_mirrors
    (t : nat) (buffer_ : list ustring) (hide : bool) (f : Stream)
    (s : State) (o : res (list ustring)) (s' : State) (reads : list ReadEvent) :
  (handle_stdout w t buffer_ hide (PyFile f) s = (o, s') /\
   reads = if using_pty s then pty_reads w else stdout_reads w) \/
  (handle_stderr w t buffer_ hide (PyFile f) s = (o, s') /\
   reads = stderr_reads w) ->
  exists texts,
    Forall2 (fun chunk text => bytes_decode chunk (encoding s) replace = Ok text)
            (take (length texts) (chunks_read reads)) texts /\
    written s' = written s ++ (if hide then [] else map (pair f) texts) /\
    (forall out,
        o = Ok out ->
        out = buffer_ ++ texts /\ length texts = length (chunks_read reads)).
Proof.
  intros [[Hrun ->] | [Hrun ->]].
  - unfold handle_stdout in Hrun.
    apply M_bind_inv in Hrun as [(p & s1 & Hget & Hrun) | (e & Hget & _)];
      [| discriminate].
    apply get_inv in Hget as [[= ->] ->].
    eapply _handle_output_mirror; [| | | exact Hrun].
    + intros ev s0 data s0' Hev.
      exact (proj2 (read_proc_stdout_Ok ev s0 data s0' Hev)).
    + intros ev. apply read_proc_stdout_preserves.
    + intros ev. apply read_proc_stdout_preserves.
  - unfold handle_stderr in Hrun.
    eapply _handle_output_mirror; [| | | exact Hrun].
    + intros ev s0 data s0' Hev.
      exact (proj2 (read_proc_stderr_Ok ev s0 data s0' Hev)).
    + intros ev. apply read_proc_stderr_preserves.
    + intros ev. apply read_proc_stderr_preserves.
Qed.
End WorkerWrites.

Lemma handle_output_mirrors_witness :
  let w := quiet_world [b "hi"; b "there"] [] 0 in
  let s := set_encoding (PyStr "utf-8") (Local__init__ default_config_run ∅) in
  exists out s' texts,
    @handle_stdout example_lib w 1 [] false (PyFile sys_stdout) s = (Ok out, s') /\
    Forall2 (fun chunk text =>
               @bytes_decode example_lib chunk (encoding s) replace = Ok text)
            [b "hi"; b "there"] texts /\
    written s' = map (pair sys_stdout) texts /\ out = texts.
Proof.
  intros w s.
  assert (Hok : raised (@handle_stdout example_lib w 1 [] false (PyFile sys_stdout) s).1
                = None) by (vm_compute; reflexivity).
  destruct (@handle_stdout example_lib w 1 [] false (PyFile sys_stdout) s)
    as [[out | e] s'] eqn:Hrun; [| discriminate Hok].
  destruct (@handle_output_mirrors example_lib w 1 [] false sys_stdout s (Ok out) s'
              (stdout_reads w) (or_introl (conj Hrun eq_refl)))
    as (texts & Hall & Hw & Hout).
  destruct (Hout out eq_refl) as [Hbuf Hlen].
  exists out, s', texts. split; [reflexivity |].
  split; [| split; [exact Hw | exact Hbuf]].
  change (chunks_read (stdout_reads w)) with [b "hi"; b "there"] in Hall, Hlen.
  rewrite Hlen in Hall. exact Hall.
Defined.

(** ** respond *)

Section RespondProperties.
Context `{PythonLib} (w : World).

Lemma write_proc_stdin_run (data : ustring) (encoded : bytes) (s : State) :
  str_encode data (encoding s) = Ok encoded ->
  write_proc_stdin w data s =
    match stdin_write_error w with
    | None => (Ok tt, set_proc_stdin (proc_stdin s ++ [encoded]) s)
    | Some msg =>
      if contains "Broken pipe" msg then (Ok tt, s) else (Raise (OSError msg), s)
    end.
Proof.
  intros Henc. unfold write_proc_stdin, _write_proc_stdin, mbind, M_bind, get, lift.
  rewrite Henc. destruct (stdin_write_error w) as [msg |]; [| reflexivity].
  destruct (contains "Broken pipe" msg); reflexivity.
Qed.

Lemma for_each_write_proc_stdin (response : ustring) (encoded : bytes) (n : nat) :
  forall (s : State) (o : res unit) (s' : State),
    str_encode response (encoding s) = Ok encoded ->
    for_each (replicate n response) (write_proc_stdin w) s = (o, s') ->
    match stdin_write_error w with
    | None => o = Ok tt /\ proc_stdin s' = proc_stdin s ++ replicate n encoded
    | Some msg =>
      proc_stdin s' = proc_stdin s /\
      o = if contains "Broken pipe" msg || (n =? 0) then Ok tt
          else Raise (OSError msg)
    end.
Proof.
  induction n as [| n IH]; intros s o s' Henc Hrun; simpl in Hrun.
  - apply mret_inv in Hrun as [-> ->].
    destruct (stdin_write_error w); rewrite ?app_nil_r, ?orb_true_r; auto.
  - unfold mbind, M_bind in Hrun. rewrite (write_proc_stdin_run _ _ _ Henc) in Hrun.
    destruct (stdin_write_error w) as [msg |] eqn:Herr.
    + destruct (contains "Broken pipe" msg) eqn:Hpipe.
      * exact (IH _ _ _ Henc Hrun).
      * injection Hrun as <- <-. auto.
    + destruct (IH _ _ _ (Henc : str_encode response (encoding (set_proc_stdin _ s)) = Ok encoded) Hrun) as [-> ->]. split; [reflexivity |].
      simpl. rewrite <- app_assoc. reflexivity.
Qed.

(** X10.  [respond] with one [Responder] among the watchers: the watcher
    object gets the whole stream so far, its cursor for this thread moves
    on, and the child is sent the encoded response once for every match
    found beyond the cursor.  A write that fails with a broken pipe is
    passed over in silence, any other failed write is raised.  Nothing is
    written to our own streams. *)
Theorem respond_sends_responses
    (t : nat) (buffer_ : list ustring) (s : State) (addr : nat)
    (obj : WatcherObject) (pattern response : ustring) (encoded : bytes) :
  iter (watchers s) = Ok [PyWatcher addr] ->
  heap s !! addr = Some obj ->
  params obj = Responder pattern response ->
  str_encode response (encoding s) = Ok encoded ->
  let stream := concat buffer_ in
  let n := length (findall pattern (drop (index (locals_of obj t)) stream)) in
  let o := (respond w t buffer_ s).1 in
  let s' := (respond w t buffer_ s).2 in
  heap s' = <[addr := (responses_in t stream obj).2]> (heap s) /\
  written s' = written s /\
  match stdin_write_error w with
  | None => o = Ok tt /\ proc_stdin s' = proc_stdin s ++ replicate n encoded
  | Some msg =>
    proc_stdin s' = proc_stdin s /\
    o = if contains "Broken pipe" msg || (n =? 0) then Ok tt
        else Raise (OSError msg)
  end.
Proof.
  intros Hiter Hheap Hparams Henc stream n o s'.
  destruct (Responder_responses_in pattern response t stream obj Hparams)
    as (Hrs & _ & _).
  assert (Hrep : forall l : list ustring,
             map (fun _ : ustring => response) l = replicate (length l) response).
  { intros l. induction l as [| m ms IH]; simpl; [reflexivity | by rewrite IH]. }
  rewrite Hrep in Hrs. fold n in Hrs.
  subst o s'. destruct (respond w t buffer_ s) as [o s'] eqn:Hrun. cbn [fst snd].
  unfold respond in Hrun. fold stream in Hrun.
  apply M_bind_inv in Hrun as [(ws & s0 & Hget & Hrun) | (e & Hget & _)];
    [| discriminate].
  apply get_inv in Hget as [[= ->] ->].
  apply M_bind_inv in Hrun as [(items & s0 & Hlift & Hrun) | (e & Hlift & _)];
    [| apply lift_inv in Hlift as [Hlift _]; congruence].
  apply lift_inv in Hlift as [Hlift ->].
  rewrite Hiter in Hlift. injection Hlift as <-.
  cbn [for_each] in Hrun.
  assert (Hbody : forall (o1 : res unit) (s1 : State),
            (objects ← get heap;
             match objects !! addr with
             | Some obj =>
               let '(r, obj) := responses_in t stream obj in
               modify (fun s => set_heap (<[addr := obj]> (heap s)) s);;
               rs ← lift r;
               for_each rs (write_proc_stdin w)
             | None => raise AttributeError
             end) s = (o1, s1) ->
            heap s1 = <[addr := (responses_in t stream obj).2]> (heap s) /\
            written s1 = written s /\
            match stdin_write_error w with
            | None => o1 = Ok tt /\ proc_stdin s1 = proc_stdin s ++ replicate n encoded
            | Some msg =>
              proc_stdin s1 = proc_stdin s /\
              o1 = if contains "Broken pipe" msg || (n =? 0) then Ok tt
                   else Raise (OSError msg)
            end).
  { intros o1 s1 Hb.
    apply M_bind_inv in Hb as [(objects & s0 & Hget & Hb) | (e & Hget & _)];
      [| discriminate].
    apply get_inv in Hget as [[= ->] ->]. rewrite Hheap in Hb.
    destruct (responses_in t stream obj) as [r obj'] eqn:Hresp.
    cbn [fst snd] in *. subst r.
    apply M_bind_inv in Hb as [([] & s0 & Hmod & Hb) | (e & Hmod & _)];
      [| discriminate].
    apply modify_inv in Hmod as [_ ->].
    apply M_bind_inv in Hb as [(rs & s0 & Hlift & Hb) | (e & Hlift & _)];
      [| discriminate].
    apply lift_inv in Hlift as [[= <-] ->].
    pose proof (preserves_for_each heap _ _
                  (fun x => write_proc_stdin_preserves w heap (fun _ _ => eq_refl) x)
                  _ _ _ Hb) as Hh.
    pose proof (preserves_for_each written _ _
                  (fun x => write_proc_stdin_preserves w written (fun _ _ => eq_refl) x)
                  _ _ _ Hb) as Hw.
    pose proof (for_each_write_proc_stdin response encoded n (set_heap _ s) o1 s1 Henc Hb) as Hp.
    split; [exact Hh |]. split; [exact Hw | exact Hp]. }
  apply M_bind_inv in Hrun as [([] & s1 & Hb & Hrun) | (e & Hb & ->)].
  - apply mret_inv in Hrun as [-> ->]. exact (Hbody _ _ Hb).
  - exact (Hbody _ _ Hb).
Qed.
End RespondProperties.

Lemma respond_sends_responses_witness :
  let w := quiet_world [] [] 0 in
  let obj := new_watcher (Responder (u "password:") (u "secret")) in
  let s := set_encoding (PyStr "utf-8")
             (set_watchers (PyList [PyWatcher 7])
                (Local__init__ default_config_run {[7 := obj]})) in
  let buffer_ := [u "Enter "; u "password:"] in
  (@respond example_lib w 1 buffer_ s).1 = Ok tt /\
  proc_stdin (@respond example_lib w 1 buffer_ s).2 = [b "secret"].
Proof.
  intros w obj s buffer_.
  assert (Henc : @str_encode example_lib (u "secret") (encoding s) = Ok (b "secret"))
    by (vm_compute; reflexivity).
  assert (Hheap : heap s !! 7 = Some obj) by (vm_compute; reflexivity).
  destruct (@respond_sends_responses example_lib w 1 buffer_ s 7 obj
              (u "password:") (u "secret") (b "secret") eq_refl Hheap eq_refl Henc)
    as (_ & _ & Ho & Hp).
  split; [exact Ho |].
  etransitivity; [exact Hp | vm_compute; reflexivity].
Defined.

(** ** The steps of a run that ends with a Result *)

Lemma start_Ok `{PythonLib} (w : World) (command : string) (shell env : PyVal)
    (s s' : State) :
  start w command shell env s = (Ok tt, s') ->
  s' = s /\ start_error w = None /\ (using_pty s = true -> pty_module w = true).
Proof.
  unfold start, mbind, M_bind, get, raise, mret, M_ret.
  destruct (using_pty s), (pty_module w), (start_error w); simpl;
    intros [= <-]; auto.
Qed.

(** Splits the first step off a computation known to end with a [Result],
    naming what the step returned, the state it left and its equation. *)
Ltac inv_result_as H Hres a s1 E :=
  eapply bind_result_inv in H; [| ordinary_steps | exact Hres];
  destruct H as (a & s1 & E & H).

Section RunTrace.
Context `{PythonLib} (w : World).

Lemma _run_body_trace (command : string) (kwargs : gmap string PyVal)
    (s : State) (o : res Result) (s' : State) (r : Result) :
  _run_body w command kwargs s = (o, s') -> result_of o = Some r ->
  exists opts out_stream err_stream in_stream s0 env0 replace_env echo enc hide
         hide_out sb out sout err,
    _run_opts w kwargs s = (Ok (opts, out_stream, err_stream, in_stream), s0) /\
    opts !! "shell" = Some (shell r) /\
    opts !! "env" = Some env0 /\
    opts !! "replace_env" = Some replace_env /\
    generate_env w env0 replace_env = Ok (env r) /\
    opts !! "echo" = Some echo /\
    opts !! "encoding" = Some enc /\
    opts !! "hide" = Some hide /\
    py_contains hide (PyStr "out") = Ok hide_out /\
    sb = set_next_thread (S (next_thread s0))
           (set_encoding
              (if py_truthy enc then enc else PyStr (preferred_encoding w))
              (if py_truthy echo
               then set_written (written s0 ++ [(sys_stdout, echo_line command)]) s0
               else s0)) /\
    handle_stdout w (next_thread s0) [] hide_out out_stream sb = (Ok out, sout) /\
    (if using_pty s0 then err = [] /\ s' = sout
     else exists hide_err,
         py_contains hide (PyStr "err") = Ok hide_err /\
         handle_stderr w (next_thread sout) [] hide_err err_stream
           (set_next_thread (S (next_thread sout)) sout) = (Ok err, s')) /\
    start_error w = None /\
    (using_pty s0 = true -> pty_module w = true) /\
    wait_error w = None /\
    stdin_thread_error w = None /\
    using_pty s' = using_pty s0 /\
    r = Result__init__ command (shell r) (env r) (captured w (concat out))
          (captured w (concat err)) (exit_code w) (using_pty s0).
Proof.
  intros Hrun Hres. pose proof (result_of_not_ordinary o r Hres) as Hno.
  unfold _run_body in Hrun.
  inv_result_as Hrun Hno ropts s0 Hopts.
  destruct ropts as [[[opts out_stream] err_stream] in_stream].
  cbv beta iota in Hrun.
  inv_result_as Hrun Hno shell_ s1 Hshell.
  inv_result_as Hrun Hno env0 s2 Henv0.
  inv_result_as Hrun Hno replace_env s3 Hrenv.
  inv_result_as Hrun Hno env_ s4 Henv.
  inv_result_as Hrun Hno echo s5 Hecho.
  inv_result_as Hrun Hno u6 s6 Hwrite.
  inv_result_as Hrun Hno u7 s7 Hstart.
  inv_result_as Hrun Hno enc s8 Henc.
  inv_result_as Hrun Hno u9 s9 Hsetenc.
  inv_result_as Hrun Hno hide s10 Hhide.
  inv_result_as Hrun Hno hide_out s11 Hhide_out.
  inv_result_as Hrun Hno echo_stdin s12 Hes.
  inv_result_as Hrun Hno upty s13 Hupty.
  inv_result_as Hrun Hno hide_err s14 Hhide_err.
  inv_result_as Hrun Hno t s15 Ht.
  inv_result_as Hrun Hno out s16 Hout.
  inv_result_as Hrun Hno err s17 Herr.
  inv_result_as Hrun Hno u18 s18 Hint.
  (* the steps before the threads *)
  apply lift_inv in Hshell as [Hshell ->]. apply getitem_Ok in Hshell.
  apply lift_inv in Henv0 as [Henv0 ->]. apply getitem_Ok in Henv0.
  apply lift_inv in Hrenv as [Hrenv ->]. apply getitem_Ok in Hrenv.
  apply lift_inv in Henv as [Henv ->].
  apply lift_inv in Hecho as [Hecho ->]. apply getitem_Ok in Hecho.
  assert (Hs6 : s6 = if py_truthy echo
                     then set_written (written s0 ++ [(sys_stdout, echo_line command)]) s0
                     else s0).
  { destruct (py_truthy echo).
    - unfold stream_write in Hwrite. apply modify_inv in Hwrite as [_ ->]. reflexivity.
    - apply mret_inv in Hwrite as [_ ->]. reflexivity. }
  clear Hwrite. destruct u7.
  apply start_Ok in Hstart as (-> & Hstart & Hmodule).
  apply lift_inv in Henc as [Henc ->]. apply getitem_Ok in Henc.
  apply modify_inv in Hsetenc as [_ ->].
  apply lift_inv in Hhide as [Hhide ->]. apply getitem_Ok in Hhide.
  apply lift_inv in Hhide_out as [Hhide_out ->].
  apply lift_inv in Hes as [_ ->].
  apply get_inv in Hupty as [[= ->] ->].
  assert (Hpty6 : using_pty s6 = using_pty s0).
  { rewrite Hs6. destruct (py_truthy echo); reflexivity. }
  cbn [using_pty set_encoding] in Hhide_err, Herr. rewrite Hpty6 in Hhide_err, Herr.
  cbn [using_pty set_encoding] in Hmodule. rewrite Hpty6 in Hmodule.
  assert (Hs14 : s14 = set_encoding
                         (if py_truthy enc then enc else PyStr (preferred_encoding w))
                         s6 /\
                 (using_pty s0 = false -> py_contains hide (PyStr "err") = Ok hide_err)).
  { destruct (using_pty s0); simpl in Hhide_err.
    - apply mret_inv in Hhide_err as [_ ->]. split; [reflexivity | discriminate].
    - apply lift_inv in Hhide_err as [Hhide_err ->]. auto. }
  destruct Hs14 as [-> Hhide_err'].
  injection Ht as <- <-.
  unfold catch in Hout.
  match type of Hout with
  | (let '(_, _) := ?run in _) = _ =>
    destruct run as [r_out sout] eqn:Eout; injection Hout as <- <-
  end.
  (* nothing was raised while waiting *)
  destruct (wait_error w) as [we |] eqn:Hwait;
    cbn [fmap option_fmap option_map] in Hrun, Hint.
  { exfalso. injection Hrun as <- <-. apply (Hno _ eq_refl). destruct we; exact I. }
  apply mret_inv in Hint as [_ ->].
  (* and no thread raised *)
  destruct (nonempty _) eqn:Hex in Hrun.
  { exfalso. injection Hrun as <- <-. apply (Hno _ eq_refl). exact I. }
  apply nonempty_false in Hex.
  apply app_eq_nil in Hex as [Hr_out Hex]. apply app_eq_nil in Hex as [Hstdin Hr_err].
  destruct r_out as [out | ?]; [| discriminate].
  destruct err as [err | ?]; [| discriminate].
  destruct (stdin_thread_error w) eqn:Hin; [discriminate |].
  clear Hr_out Hr_err Hstdin. cbn [buffer_of] in Hrun.
  (* the stderr thread *)
  assert (Herr' : using_pty s17 = using_pty s0 /\
                  if using_pty s0 then err = [] /\ s17 = sout
                  else handle_stderr w (next_thread sout) [] hide_err err_stream
                         (set_next_thread (S (next_thread sout)) sout)
                       = (Ok err, s17)).
  { pose proof (handle_stdout_preserves w using_pty (fun _ _ => eq_refl)
                  (fun _ _ => eq_refl) (fun _ _ => eq_refl) _ _ _ _ _ _ _ Eout)
      as Hpty_out.
    cbn [using_pty set_next_thread set_encoding] in Hpty_out.
    rewrite Hpty6 in Hpty_out.
    destruct (using_pty s0) eqn:Hpty; simpl in Herr.
    - apply mret_inv in Herr as [[= <-] ->]. auto.
    - apply M_bind_Ok in Herr as (t' & st' & Et' & Herr).
      injection Et' as <- <-. unfold catch in Herr.
      match type of Herr with
      | (let '(_, _) := ?run in _) = _ =>
        destruct run as [r_err s_err] eqn:Eerr; injection Herr as -> ->
      end.
      split; [| reflexivity].
      rewrite (handle_stderr_preserves w using_pty (fun _ _ => eq_refl)
                 (fun _ _ => eq_refl) (fun _ _ => eq_refl) _ _ _ _ _ _ _ Eerr).
      exact Hpty_out. }
  destruct Herr' as [Hpty17 Herr'].
  (* the result *)
  unfold returncode, mbind, M_bind, mret, M_ret, get, lift, raise,
    Result__bool__, Result__nonzero__, ok in Hrun.
  simpl in Hrun. fold (captured w (concat out)) in Hrun.
  fold (captured w (concat err)) in Hrun. rewrite Hpty17 in Hrun.
  set (R := Result__init__ command shell_ env_ (captured w (concat out))
              (captured w (concat err)) (exit_code w) (using_pty s0)) in *.
  assert (Hfinal : s' = s17 /\ r = R).
  { destruct (exit_code w =? 0)%Z.
    - injection Hrun as <- <-. simpl in Hres. split; congruence.
    - unfold getitem in Hrun. destruct (opts !! "warn") as [warn |].
      + destruct (py_truthy warn); injection Hrun as <- <-; simpl in Hres;
          split; congruence.
      + exfalso. injection Hrun as <- <-. apply (Hno _ eq_refl). exact I. }
  destruct Hfinal as [-> ->].
  exists opts, out_stream, err_stream, in_stream, s0, env0, replace_env, echo, enc,
    hide, hide_out.
  eexists _, out, sout, err.
  split; [exact Hopts |]. split; [exact Hshell |]. split; [exact Henv0 |].
  split; [exact Hrenv |]. split; [exact Henv |]. split; [exact Hecho |].
  split; [exact Henc |]. split; [exact Hhide |]. split; [exact Hhide_out |].
  split; [reflexivity |].
  split.
  { assert (Hnext : next_thread s6 = next_thread s0)
      by (rewrite Hs6; destruct (py_truthy echo); reflexivity).
    rewrite <- Hs6, <- Hnext. exact Eout. }
  split.
  { destruct (using_pty s0); [exact Herr' |].
    exists hide_err. split; [apply Hhide_err'; reflexivity | exact Herr']. }
  split; [exact Hstart |]. split; [exact Hmodule |].
  split; [reflexivity |]. split; [reflexivity |].
  split; [exact Hpty17 | reflexivity].
Qed.

(** X13.  A [Result], returned or inside a [Failure], exists only for a
    child that was started, a wait that nothing disturbed and IO threads
    that did not raise.  It carries the command as given, the resolved
    [shell], the environment [generate_env] made of the resolved [env] and
    [replace_env], the child's exit code, and whether a pty was used. *)
Theorem run_result_fields
    (cmd : string) (kwargs : gmap string PyVal)
    (s : State) (o : res Result) (s' : State) (r : Result) :
  run w cmd kwargs s = (o, s') ->
  result_of o = Some r ->
  let resolved := (_run_opts_loop (context_config_run s) kwargs).1 in
  command r = cmd /\
  resolved !! "shell" = Some (shell r) /\
  (exists env0 replace_env,
      resolved !! "env" = Some env0 /\
      resolved !! "replace_env" = Some replace_env /\
      generate_env w env0 replace_env = Ok (env r)) /\
  return_code r = exit_code w /\
  pty r = using_pty s' /\
  (pty r = true -> pty_module w = true) /\
  start_error w = None /\
  wait_error w = None /\
  stdin_thread_error w = None.
Proof.
  intros Hrun Hres resolved. rewrite run_eq in Hrun.
  destruct (_run_body_trace cmd kwargs s o s' r Hrun Hres)
    as (opts & out_stream & err_stream & in_stream & s0 & env0 & replace_env
        & echo & enc & hide & hide_out & sb & out & sout & err
        & Hopts & Hshell & Henv0 & Hrenv & Henv & _ & _ & _ & _ & _ & _ & _
        & Hstart & Hmodule & Hwait & Hstdin & Hpty & Hr).
  pose proof (fun key => _run_opts_Ok_lookup w kwargs s s0 opts _ _ _ key Hopts)
    as Hlookup.
  rewrite Hlookup in Hshell, Henv0, Hrenv by done.
  assert (Hfields : command r = cmd /\ return_code r = exit_code w /\
                    pty r = using_pty s0) by (rewrite Hr; auto).
  destruct Hfields as (Hc & Hcode & Hp).
  split; [exact Hc |]. split; [exact Hshell |].
  split; [exists env0, replace_env; auto |].
  split; [exact Hcode |]. split; [congruence |].
  split; [rewrite Hp; exact Hmodule |]. auto.
Qed.

End RunTrace.

Lemma run_result_fields_witness :
  let w := quiet_world [b "hi"] [b "oops"] 0 in
  let s := Local__init__ default_config_run ∅ in
  exists r s',
    @run example_lib w "make" ∅ s = (Ok r, s') /\
    command r = "make" /\ return_code r = 0%Z /\ pty r = using_pty s'.
Proof.
  intros w s.
  assert (Hok : raised (@run example_lib w "make" ∅ s).1 = None)
    by (vm_compute; reflexivity).
  destruct (@run example_lib w "make" ∅ s) as [[r | e] s'] eqn:Hrun;
    [| discriminate Hok].
  exists r, s'. split; [reflexivity |].
  destruct (@run_result_fields example_lib w "make" ∅ s (Ok r) s' r Hrun eq_refl)
    as (Hc & _ & _ & Hcode & Hpty & _).
  split; [exact Hc |]. split; [exact Hcode | exact Hpty].
Defined.

(** ** handle_stdin *)

Lemma M_bind_ext {A B} (m : M A) (k1 k2 : A -> M B) (s : State) :
  (forall a s1, m s = (Ok a, s1) -> k1 a s1 = k2 a s1) ->
  (m ≫= k1) s = (m ≫= k2) s.
Proof.
  intros Hk. unfold mbind, M_bind.
  destruct (m s) as [[a | e] s1]; [apply Hk |]; reflexivity.
Qed.

Lemma M_bind_not_Ok {A B} (m : M A) (k : A -> M B) (s : State) (b : B) :
  (forall a s1, m s = (Ok a, s1) -> (k a s1).1 <> Ok b) ->
  ((m ≫= k) s).1 <> Ok b.
Proof.
  intros Hk. unfold mbind, M_bind.
  destruct (m s) as [[a | e] s1]; [apply Hk; reflexivity | discriminate].
Qed.

Section StdinProperties.
Context `{PythonLib} (w : World).

Lemma bytes_decode_nonempty (data : bytes) (enc : PyVal) (text : ustring) :
  bytes_decode data enc replace = Ok text -> (text = [] <-> data = []).
Proof.
  unfold bytes_decode. destruct enc; try discriminate.
  destruct (codecs_lookup s); [| discriminate].
  apply decode_from_replace_nonempty.
Qed.

(** One turn that reads a character: what it does to the state. *)
Lemma read_our_stdin_inv (turn : StdinTurn) (s : State) (o : res (option ustring))
    (s' : State) :
  read_our_stdin turn s = (o, s') ->
  s' = s /\
  match o with
  | Ok None => ready_for_reading turn = false
  | Ok (Some []) =>
    ready_for_reading turn = true /\
    (read_byte turn = read_bytes [] \/ read_byte turn = read_str [])
  | Ok (Some char) =>
    ready_for_reading turn = true /\ stdin_text (encoding s) (read_byte turn) char /\
    read_byte turn <> read_bytes [] /\ read_byte turn <> read_str []
  | Raise _ => True
  end.
Proof.
  unfold read_our_stdin. destruct (ready_for_reading turn).
  - destruct (read_byte turn) as [[| byte data] | text].
    + intros Hr. apply mret_inv in Hr as [-> ->]. auto.
    + intros Hr.
      apply M_bind_inv in Hr as [(text & s1 & Hdec & Hr) | (e & Hdec & ->)].
      * apply decode_Ok in Hdec as [-> Hdec]. apply mret_inv in Hr as [-> ->].
        split; [reflexivity |].
        destruct text as [| c text].
        -- apply bytes_decode_nonempty in Hdec. destruct Hdec as [Hd _].
           discriminate (Hd eq_refl).
        -- simpl. repeat split; [exact Hdec | discriminate | discriminate].
      * split; [| exact I]. exact (decode_preserves id _ _ _ _ Hdec).
    + intros Hr. apply mret_inv in Hr as [-> ->]. split; [reflexivity |].
      destruct text; simpl; repeat split; auto; discriminate.
  - intros Hr. apply mret_inv in Hr as [-> ->]. auto.
Qed.

Lemma write_proc_stdin_Ok (char : ustring) (s s' : State) :
  write_proc_stdin w char s = (Ok tt, s') ->
  exists data,
    str_encode char (encoding s) = Ok data /\
    s' = match stdin_write_error w with
         | None => set_proc_stdin (proc_stdin s ++ [data]) s
         | Some _ => s
         end.
Proof.
  unfold write_proc_stdin, _write_proc_stdin, mbind, M_bind, get, lift.
  destruct (str_encode char (encoding s)) as [data | e]; [| discriminate].
  intros Hw. exists data. split; [reflexivity |].
  destruct (stdin_write_error w) as [msg |].
  - destruct (negb (contains "Broken pipe" msg)); [discriminate |].
    apply mret_inv in Hw as [_ ->]. reflexivity.
  - apply modify_inv in Hw as [_ ->]. reflexivity.
Qed.


End StdinProperties.


